(** * tmbot3000: query understanding, field resolution and flight scheduling

    A shallow embedding of the JavaScript sources of the tour-manager bot
    (the intent matcher, the AI engine with its parser, field resolver and
    retrieval orchestrator, and the timezone-aware flights formatter),
    together with the properties of the specification that concern them.

    Conventions of the embedding.
    - A JavaScript string is a [string] of one-byte code units; the model
      covers ASCII text (code units of 128 and above are neither word
      characters nor white space, and have no case).
    - A JavaScript number that holds a count, a score or a time in
      milliseconds is a [Z]; a number that may be [NaN] is an [option Z].
    - A function that may throw returns a value of the error monad [exc].
    - An object used as a record of unknown shape (a show row) is an
      association list in [Object.keys] order. *)

From Stdlib Require Import ZArith List String Ascii Bool Lia Arith.
From Stdlib Require Import Numbers.DecimalString QArith Qround.
From Stdlib Require Import Sorting.Sorted Permutation.
Import ListNotations.

Local Open Scope string_scope.
Local Open Scope Z_scope.

(** ** JavaScript strings *)

Module JsString.

Definition code (c : ascii) : nat := nat_of_ascii c.

Definition isUpper (c : ascii) : bool :=
  (65 <=? code c)%nat && (code c <=? 90)%nat.
Definition isLower (c : ascii) : bool :=
  (97 <=? code c)%nat && (code c <=? 122)%nat.
Definition isDigit (c : ascii) : bool :=
  (48 <=? code c)%nat && (code c <=? 57)%nat.

(** [\w] of a regular expression: [[A-Za-z0-9_]]. *)
Definition isWord (c : ascii) : bool :=
  isUpper c || isLower c || isDigit c || (code c =? 95)%nat.

(** [\s] of a regular expression, and the characters [trim] removes:
    tab, line feed, vertical tab, form feed, carriage return, space. *)
Definition isSpace (c : ascii) : bool :=
  ((9 <=? code c)%nat && (code c <=? 13)%nat) || (code c =? 32)%nat.

Definition lowerChar (c : ascii) : ascii :=
  if isUpper c then ascii_of_nat (code c + 32) else c.

Fixpoint mapChars (f : ascii -> ascii) (s : string) : string :=
  match s with
  | EmptyString => EmptyString
  | String c s' => String (f c) (mapChars f s')
  end.

Fixpoint filterChars (f : ascii -> bool) (s : string) : string :=
  match s with
  | EmptyString => EmptyString
  | String c s' => if f c then String c (filterChars f s') else filterChars f s'
  end.

(** [s.toLowerCase()] *)
Definition toLowerCase (s : string) : string := mapChars lowerChar s.

(** [!s] for a string: only the empty string is falsy. *)
Definition isEmpty (s : string) : bool :=
  match s with EmptyString => true | _ => false end.

(** [s.startsWith(p)] *)
Fixpoint startsWith (s p : string) : bool :=
  match p, s with
  | EmptyString, _ => true
  | String _ _, EmptyString => false
  | String a p', String b s' => Ascii.eqb a b && startsWith s' p'
  end.

(** [s.includes(p)]: [p] occurs in [s] as a contiguous substring. *)
Fixpoint includes (s p : string) : bool :=
  startsWith s p ||
  match s with
  | EmptyString => false
  | String _ s' => includes s' p
  end.

(** [s.endsWith(p)] *)
Fixpoint endsWith (s p : string) : bool :=
  String.eqb s p ||
  match s with
  | EmptyString => false
  | String _ s' => endsWith s' p
  end.

Fixpoint trimStart (s : string) : string :=
  match s with
  | EmptyString => EmptyString
  | String c s' => if isSpace c then trimStart s' else s
  end.

Fixpoint trimEnd (s : string) : string :=
  match s with
  | EmptyString => EmptyString
  | String c s' =>
      let t := trimEnd s' in
      if isSpace c && isEmpty t then EmptyString else String c t
  end.

(** [s.trim()] *)
Definition trim (s : string) : string := trimEnd (trimStart s).

(** [s.slice(i, j)] for [0 <= i <= j]. *)
Definition slice (i j : nat) (s : string) : string :=
  String.substring i (j - i) s.

(** [xs.includes(x)] on an array of strings. *)
Definition arrayIncludes (xs : list string) (x : string) : bool :=
  existsb (String.eqb x) xs.

(** [xs.push(x)] *)
Definition push {A} (xs : list A) (x : A) : list A := app xs [x].

(** [xs.find(p)] *)
Definition arrayFind {A} (p : A -> bool) (xs : list A) : option A := find p xs.

End JsString.
Import JsString.

(** ** The query parser (class [TmAiEngine], dynamic-vocabulary variant) *)

(** The part of the engine object the parser and the orchestrator read:
    the two vocabulary arrays filled by [loadTerms] and [loadCities]. *)
Record Engine : Type := {
  industryTerms : list string;
  cities : list string
}.

(** One step of [getCitiesFromCsv]: a field that is there and not empty is
    added, lower-cased, to the set of cities unless the set has it. *)
Definition addCity (cities : list string) (field : option string) : list string :=
  match field with
  | Some c =>
      if isEmpty c then cities
      else if arrayIncludes cities (toLowerCase c) then cities
      else push cities (toLowerCase c)
  | None => cities
  end.

(** [getCitiesFromCsv()]: the distinct lower-cased departure and arrival
    cities of the flights file, in the order they are first met.  [columns]
    holds, for each data line, the two fields found by splitting the line at
    its commas; it is [None] when the file is missing, has no data line, or
    cannot be read. *)
Definition getCitiesFromCsv
  (columns : option (list (option string * option string))) : list string :=
  match columns with
  | None => []
  | Some lines =>
      fold_left (fun cities '(dep, arr) => addCity (addCity cities dep) arr)
                lines []
  end.

(** [this.VERBS]: longer, more specific verbs first. *)
Definition VERBS : list string :=
  [ "tell me about"; "what time is"; "when is"; "where is"; "who is"; "what is" ].

Record ParsedQuery : Type := {
  verb : option string;
  entities : list string;
  normalized : string
}.

(** [replace(/[^\w\s]/g, " ")] *)
Definition stripPunctuation (s : string) : string :=
  mapChars (fun c => if isWord c || isSpace c then c else " "%char) s.

(** [replace(/\s+/g, " ")]; [inrun] tells that the previous character was
    white space and has already been replaced. *)
Fixpoint collapseSpaces (inrun : bool) (s : string) : string :=
  match s with
  | EmptyString => EmptyString
  | String c s' =>
      if isSpace c
      then (if inrun then collapseSpaces true s'
            else String " " (collapseSpaces true s'))
      else String c (collapseSpaces false s')
  end.

(** [normalizeMessage(message)] *)
Definition normalizeMessage (message : string) : string :=
  trim (collapseSpaces false (stripPunctuation (toLowerCase message))).

(** The first verb of [VERBS] the text starts with. *)
Definition firstVerb (text : string) : option string :=
  arrayFind (fun v => startsWith text v) VERBS.

(** The entity loop: push [c] unless it is absent from the text or already
    collected. *)
Definition collect (text : string) (acc : list string) (cands : list string)
  : list string :=
  fold_left
    (fun acc c =>
       if includes text c && negb (arrayIncludes acc c) then push acc c else acc)
    cands acc.

Definition extraHints : list string := [ "flight"; "flights"; "show" ].

(** The statements of [parseMessage] that follow its first [return]
    (verb, entities, hints, normalized text). *)
Definition parseMessage_rest (this : Engine) (text : string) : ParsedQuery :=
  let candidates :=
    filter (fun c => negb (isEmpty c)) (industryTerms this ++ cities this)%list in
  let ents := collect text [] candidates in
  let ents := collect text ents extraHints in
  {| verb := firstVerb text; entities := ents; normalized := text |}.

(** [parseMessage(message)] as written: the [if] guards only the assignment,
    and the [return out] that follows it is unconditional, so the
    statements of [parseMessage_rest] are never reached. *)
Definition parseMessage (this : Engine) (message : string) : ParsedQuery :=
  let out := {| verb := None; entities := []; normalized := "" |} in
  let text := normalizeMessage message in
  let out :=
    if isEmpty text
    then {| verb := verb out; entities := entities out; normalized := text |}
    else out in
  out.

(** ** Regular expressions

    The regular expressions of the sources, as a syntax tree with a
    backtracking matcher.  Only [RegExp.prototype.test] is used on them, so
    only the existence of a match matters. *)

Module Regex.

Inductive regex : Type :=
| REps
| RChar (c : ascii)
| RAny                          (* [.]: any character but a line terminator *)
| RClass (f : ascii -> bool)    (* a character class *)
| RSeq (r1 r2 : regex)
| RAlt (r1 r2 : regex)
| ROpt (r : regex)              (* [r?] *)
| RStar (r : regex)             (* [r*] *)
| RBol                          (* [^] *)
| REol                          (* [$] *)
| RWordB.                       (* [\b] *)

Definition RPlus (r : regex) : regex := RSeq r (RStar r).

(** A literal run of characters. *)
Fixpoint lit (s : string) : regex :=
  match s with
  | EmptyString => REps
  | String c EmptyString => RChar c
  | String c s' => RSeq (RChar c) (lit s')
  end.

(** [r1|r2|...] *)
Fixpoint alts (rs : list regex) : regex :=
  match rs with
  | [] => RClass (fun _ => false)
  | [r] => r
  | r :: rs' => RAlt r (alts rs')
  end.

Definition isLineTerminator (c : ascii) : bool :=
  (code c =? 10)%nat || (code c =? 13)%nat.

Definition wordAt (c : option ascii) : bool :=
  match c with Some a => isWord a | None => false end.

Definition headOf (s : string) : option ascii :=
  match s with EmptyString => None | String c _ => Some c end.

(** [m r prev s k]: [r] matches a prefix of [s] (the character before it
    being [prev]) and the continuation [k] accepts what follows. *)
Fixpoint m (r : regex) (prev : option ascii) (s : string)
           (k : option ascii -> string -> bool) {struct r} : bool :=
  match r with
  | REps => k prev s
  | RChar c =>
      match s with
      | String a s' => Ascii.eqb a c && k (Some a) s'
      | EmptyString => false
      end
  | RAny =>
      match s with
      | String a s' => negb (isLineTerminator a) && k (Some a) s'
      | EmptyString => false
      end
  | RClass f =>
      match s with
      | String a s' => f a && k (Some a) s'
      | EmptyString => false
      end
  | RSeq r1 r2 => m r1 prev s (fun p s' => m r2 p s' k)
  | RAlt r1 r2 => m r1 prev s k || m r2 prev s k
  | ROpt r1 => m r1 prev s k || k prev s
  | RStar r1 =>
      (fix star (fuel : nat) (prev : option ascii) (s : string) : bool :=
         match fuel with
         | O => k prev s
         | S fuel' =>
             m r1 prev s
               (fun p s' =>
                  (String.length s' <? String.length s)%nat && star fuel' p s')
             || k prev s
         end) (S (String.length s)) prev s
  | RBol => match prev with None => k prev s | Some _ => false end
  | REol => match s with EmptyString => k prev s | String _ _ => false end
  | RWordB => xorb (wordAt prev) (wordAt (headOf s)) && k prev s
  end.

Fixpoint searchFrom (r : regex) (prev : option ascii) (s : string) : bool :=
  m r prev s (fun _ _ => true) ||
  match s with
  | EmptyString => false
  | String c s' => searchFrom r (Some c) s'
  end.

(** [/r/.test(s)] *)
Definition test (r : regex) (s : string) : bool := searchFrom r None s.

(** [/r/i.test(s)] for a pattern whose letters are lower case. *)
Definition testi (r : regex) (s : string) : bool := test r (toLowerCase s).

End Regex.
Import Regex.

(** ** JavaScript values and exceptions *)

Inductive jsval : Type :=
| VUndefined
| VNull
| VBool (b : bool)
| VNum (n : Z)
| VStr (s : string).

(** Truthiness. *)
Definition truthy (v : jsval) : bool :=
  match v with
  | VUndefined | VNull => false
  | VBool b => b
  | VNum n => negb (n =? 0)
  | VStr s => negb (isEmpty s)
  end.

(** [v != null] *)
Definition notNullish (v : jsval) : bool :=
  match v with VUndefined | VNull => false | _ => true end.

Definition decimal (n : Z) : string :=
  DecimalString.NilZero.string_of_int (Z.to_int n).

(** [String(v)] *)
Definition toStr (v : jsval) : string :=
  match v with
  | VUndefined => "undefined"
  | VNull => "null"
  | VBool true => "true"
  | VBool false => "false"
  | VNum n => decimal n
  | VStr s => s
  end.

(** [a || b] on values. *)
Definition orElse (a b : jsval) : jsval := if truthy a then a else b.

(** A thrown error: its constructor name and its message. *)
Record jsError : Type := { ename : string; emessage : string }.

(** [String(err?.message || err)] *)
Definition errorText (e : jsError) : string :=
  if isEmpty (emessage e)
  then ename e
  else emessage e.

Inductive exc (A : Type) : Type :=
| Ok (a : A)
| Throw (e : jsError).
Arguments Ok {A} a.
Arguments Throw {A} e.

Definition bind {A B} (c : exc A) (k : A -> exc B) : exc B :=
  match c with
  | Ok a => k a
  | Throw e => Throw e
  end.

(** [try { c } catch (e) { h e }] *)
Definition tryCatch {A} (c : exc A) (h : jsError -> exc A) : exc A :=
  match c with
  | Ok a => Ok a
  | Throw e => h e
  end.

Notation "x <- c ;; k" := (bind c (fun x => k))
  (at level 61, c at next level, right associativity).

Definition TypeError (msg : string) : jsError :=
  {| ename := "TypeError"; emessage := msg |}.
Definition RangeError (msg : string) : jsError :=
  {| ename := "RangeError"; emessage := msg |}.

(** [Array.prototype.sort(cmp)], a stable sort; [sgn a b] is the sign of
    [cmp(a, b)].  An element is put before the first later element that it
    does not exceed, so equal elements keep their order. *)
Fixpoint insertBy {A} (sgn : A -> A -> comparison) (x : A) (l : list A) : list A :=
  match l with
  | [] => [x]
  | y :: l' =>
      match sgn x y with
      | Gt => y :: insertBy sgn x l'
      | _ => x :: l
      end
  end.

Definition sortBy {A} (sgn : A -> A -> comparison) (l : list A) : list A :=
  fold_right (insertBy sgn) [] l.

(** ** The field resolver ([findFieldForTerm]) *)

(** A show row: the own enumerable properties of the object, in
    [Object.keys] order. *)
Definition ShowRecord : Type := list (string * jsval).

(** [Object.keys(show)] *)
Definition keysOf (show : ShowRecord) : list string := map fst show.

(** [show[k]] *)
Fixpoint getProp (show : ShowRecord) (k : string) : jsval :=
  match show with
  | [] => VUndefined
  | (k', v) :: rest => if String.eqb k' k then v else getProp rest k
  end.

(** [Object.prototype.hasOwnProperty.call(show, k)] *)
Definition hasOwnProperty (show : ShowRecord) (k : string) : bool :=
  arrayIncludes (keysOf show) k.

Record Hit : Type := { k : string; score : Z; val : jsval }.

(** [norm]: lower case, letters and digits only. *)
Definition norm (s : string) : string :=
  filterChars (fun c => isLower c || isDigit c) (toLowerCase s).

(** [/time$|time\b/] *)
Definition reTimeKey : regex :=
  RAlt (RSeq (lit "time") REol) (RSeq (lit "time") RWordB).

Definition isTimeKey (key : string) : bool :=
  let nk := norm key in
  test reTimeKey key || endsWith nk "time" || includes nk "time".

Definition isVenueKey (key : string) : bool :=
  let nk := norm key in
  existsb (fun v => includes nk (norm v))
          [ "venue"; "venue_name"; "address"; "location" ].

Definition isCityKey (key : string) : bool :=
  let nk := norm key in String.eqb nk "city" || endsWith nk "city".

Definition isStateKey (key : string) : bool :=
  let nk := norm key in String.eqb nk "state" || String.eqb nk "region".

Definition isCountryKey (key : string) : bool :=
  String.eqb (norm key) "country".

(** [verb === v] for a verb that is a string or [null]. *)
Definition verbIs (verb : option string) (v : string) : bool :=
  match verb with Some w => String.eqb w v | None => false end.

Definition locationLike (verb : option string) : bool := verbIs verb "where is".

Definition timeLike (verb : option string) : bool :=
  verbIs verb "what time is" || verbIs verb "when is".

(** The score of one key, as accumulated in the loop body. *)
Definition scoreKey (nTerm : string) (verb : option string) (key : string) : Z :=
  let nk := norm key in
  let mentions := includes nk nTerm in
  let score := 0 in
  let score := if mentions then score + 5 else score in
  let score := if isTimeKey key then score + 3 else score in
  let score :=
    if locationLike verb &&
       (isVenueKey key || isCityKey key || isStateKey key || isCountryKey key)
    then score + 4 else score in
  let score := if timeLike verb && isTimeKey key then score + 4 else score in
  score.

(** [String(v).trim() !== ''] *)
Definition nonBlank (v : jsval) : bool := negb (isEmpty (trim (toStr v))).

(** The array [scored] after the loop over the keys. *)
Definition scoredOf (show : ShowRecord) (nTerm : string) (verb : option string)
  : list Hit :=
  flat_map
    (fun key =>
       let sc := scoreKey nTerm verb key in
       let v := getProp show key in
       if notNullish v && nonBlank v && (0 <? sc)
       then [ {| k := key; score := sc; val := v |} ]
       else [])
    (keysOf show).

Definition prefs : list string :=
  [ "soundcheck_time"; "load_in_time"; "doors_time"; "show_time" ].

(** The fallback over [prefs] taken when nothing was scored. *)
Definition fallbackHit (show : ShowRecord) : option Hit :=
  match
    arrayFind
      (fun p => hasOwnProperty show p &&
                nonBlank (orElse (getProp show p) (VStr "")))
      prefs
  with
  | Some p => Some {| k := p; score := 1; val := getProp show p |}
  | None => None
  end.

(** The sign of [b.score - a.score]. *)
Definition byScoreDesc (a b : Hit) : comparison := (score b - score a) ?= 0.

(** [findFieldForTerm({ show, term, verb })]; [show] is [None] for a
    [null] show, [term] is [None] for a [null] term. *)
Definition findFieldForTerm
  (show : option ShowRecord) (term : option string) (verb : option string)
  : option Hit :=
  match show, term with
  | Some show, Some term =>
      if isEmpty term then None else
      let nTerm := norm term in
      let scored := scoredOf show nTerm verb in
      match scored with
      | [] => if timeLike verb then fallbackHit show else None
      | _ :: _ => hd_error (sortBy byScoreDesc scored)
      end
  | _, _ => None
  end.

(** [k.replace(/_?(time|name)$/i, "")]: the leftmost match wins, so the
    underscore goes with the suffix when it is there. *)
Definition stripTimeName (key : string) : string :=
  let low := toLowerCase key in
  let n := String.length key in
  if endsWith low "_time" || endsWith low "_name" then slice 0 (n - 5) key
  else if endsWith low "time" || endsWith low "name" then slice 0 (n - 4) key
  else key.

(** [guessTermFromShowKeys(qstr, showObj)] *)
Definition guessTermFromShowKeys (qstr : string) (showObj : ShowRecord)
  : option string :=
  let qs := norm qstr in
  arrayFind
    (fun base =>
       let baseNorm := filterChars (fun c => negb (Ascii.eqb c "_")) (norm base) in
       negb (isEmpty baseNorm) && includes qs baseNorm)
    (map stripTimeName (keysOf showObj)).

(** ** Dates and time zones: what the platform provides

    [Date.UTC], [Intl.DateTimeFormat] and the time zone database are not
    code of the repository.  The calendar is the proleptic Gregorian one of
    ECMAScript; a time zone is the function giving its offset from UTC, in
    milliseconds, at each instant. *)

Module JsDate.

Definition msPerDay : Z := 86400000.

(** Day number (days since 1970-01-01) of a civil date, month in 1..12. *)
Definition daysFromCivil (y mo d : Z) : Z :=
  let y := if mo <=? 2 then y - 1 else y in
  let era := y / 400 in
  let yoe := y - era * 400 in
  let mp := if 2 <? mo then mo - 3 else mo + 9 in
  let doy := (153 * mp + 2) / 5 + d - 1 in
  let doe := yoe * 365 + yoe / 4 - yoe / 100 + doy in
  era * 146097 + doe - 719468.

(** Civil date (year, month in 1..12, day) of a day number. *)
Definition civilFromDays (z : Z) : Z * Z * Z :=
  let z := z + 719468 in
  let era := z / 146097 in
  let doe := z - era * 146097 in
  let yoe := (doe - doe / 1460 + doe / 36524 - doe / 146096) / 365 in
  let y := yoe + era * 400 in
  let doy := doe - (365 * yoe + yoe / 4 - yoe / 100) in
  let mp := (5 * doy + 2) / 153 in
  let d := doy - (153 * mp + 2) / 5 + 1 in
  let mo := if mp <? 10 then mp + 3 else mp - 9 in
  (if mo <=? 2 then y + 1 else y, mo, d).

(** [Date.UTC(Y, M, D, h, mi, s)], [M] counted from 0.  A year from 0 to 99
    stands for 1900 + year.  (The components the sources pass have at most
    four digits, far below the range where the result is clipped.) *)
Definition DateUTC (Y M D h mi s : Z) : Z :=
  let Y := if (0 <=? Y) && (Y <=? 99) then 1900 + Y else Y in
  let ym := Y + M / 12 in
  let mn := M mod 12 in
  let day := daysFromCivil ym (mn + 1) 1 + D - 1 in
  day * msPerDay + (h * 3600000 + mi * 60000 + s * 1000).

Record Parts : Type := {
  year : Z; month : Z; day : Z; hour : Z; minute : Z; second : Z
}.

(** The wall-clock fields of a count of milliseconds read as UTC. *)
Definition partsOf (ms : Z) : Parts :=
  let '(y, mo, d) := civilFromDays (ms / msPerDay) in
  let tod := ms mod msPerDay in
  {| year := y; month := mo; day := d;
     hour := tod / 3600000;
     minute := (tod / 60000) mod 60;
     second := (tod / 1000) mod 60 |}.

(** A zone: its UTC offset in milliseconds at an instant. *)
Definition Zone : Type := Z -> Z.

(** [fmt.formatToParts(d)] for a formatter of zone [z] (year, 2-digit month,
    day, hour from 0 to 23, minute, second). *)
Definition formatToParts (z : Zone) (d : Z) : Parts := partsOf (d + z d).

End JsDate.
Import JsDate.

(** A JavaScript number that may be [NaN]. *)
Definition num : Type := option Q.

Definition ofZ (n : Z) : num := Some (inject_Z n).
Definition nsub (a b : num) : num :=
  match a, b with Some x, Some y => Some (x - y)%Q | _, _ => None end.
Definition nmul (a b : num) : num :=
  match a, b with Some x, Some y => Some (x * y)%Q | _, _ => None end.
Definition ndiv (a b : num) : num :=
  match a, b with Some x, Some y => Some (x / y)%Q | _, _ => None end.
(** [a >= b], false when either side is [NaN]. *)
Definition nge (a b : num) : bool :=
  match a, b with Some x, Some y => Qle_bool y x | _, _ => false end.

(** The time value of [new Date(x)]: the integer part of [x]. *)
Definition truncQ (x : Q) : Z :=
  if Qle_bool 0 x then Qfloor x else Qceiling x.

(** What the engine takes from its platform. *)
Record Platform : Type := {
  (** the time zone database: [None] for a name that is not a zone *)
  timeZone : string -> option Zone;
  (** [Date.now()] at the start of [formatUpcomingFlights] *)
  dateNow : Z;
  (** the time value of the later [new Date()] *)
  newDate : Z;
  (** the time value of [new Date(v)], [None] for an invalid date *)
  dateOf : jsval -> option Z;
  (** [new Date(ms).toLocaleDateString("en-AU", { timeZone: tz, ... })] *)
  prettyDate : Z -> string -> string;
  (** [new Date(ms).toLocaleTimeString("en-AU", { timeZone: tz, ... })] *)
  prettyTime : Z -> string -> string;
  (** [new Date(v).toLocaleDateString("en-AU", ...)] in the host's zone *)
  fmtDate : jsval -> string;
  (** [Math.floor(Math.random() * 3)] *)
  randomIndex : nat;
  (** [process.env.LOCALE] *)
  envLocale : option string
}.

(** Unary plus on a string: white space is trimmed, the empty string is 0,
    an optionally signed run of digits is its value; anything else the
    sources can meet in a date-time slice is [NaN]. *)
Fixpoint digitsValue (acc : Z) (s : string) : option Z :=
  match s with
  | EmptyString => Some acc
  | String c s' =>
      if isDigit c
      then digitsValue (10 * acc + Z.of_nat (code c - 48)) s'
      else None
  end.

Definition toNumber (s : string) : option Z :=
  match trim s with
  | EmptyString => Some 0
  | String "-" (String c r) => option_map Z.opp (digitsValue 0 (String c r))
  | String "+" (String c r) => digitsValue 0 (String c r)
  | t => digitsValue 0 t
  end.

(** [s || "0"] on strings *)
Definition orZero (s : string) : string := if isEmpty s then "0" else s.

(** [getOffsetMinutesAt(utcMs, tz)] *)
Definition getOffsetMinutesAt (P : Platform) (utcMs : num) (tz : string)
  : exc num :=
  let d := option_map truncQ utcMs in
  match timeZone P tz with
  | None => Throw (RangeError "Invalid time zone specified")
  | Some zone =>
      match d with
      | None => Throw (RangeError "Invalid time value")
      | Some d =>
          let parts := formatToParts zone d in
          let asUTC :=
            DateUTC (year parts) (month parts - 1) (day parts)
                    (hour parts) (minute parts) (second parts) in
          Ok (ndiv (nsub (ofZ asUTC) utcMs) (ofZ 60000))
      end
  end.

(** The six numbers read from the fixed offsets of a local date-time. *)
Definition localFields (localIso : string) : option Parts :=
  match toNumber (slice 0 4 localIso), toNumber (slice 5 7 localIso),
        toNumber (slice 8 10 localIso),
        toNumber (orZero (slice 11 13 localIso)),
        toNumber (orZero (slice 14 16 localIso)),
        toNumber (orZero (slice 17 19 localIso)) with
  | Some Y, Some M, Some D, Some h, Some mi, Some s =>
      Some {| year := Y; month := M; day := D;
              hour := h; minute := mi; second := s |}
  | _, _, _, _, _, _ => None
  end.

(** [Date.UTC(Y, M - 1, D, h, m, s)] of the fields, [NaN] when one is. *)
Definition baseOf (localIso : string) : num :=
  match localFields localIso with
  | Some f =>
      ofZ (DateUTC (year f) (month f - 1) (day f)
                   (hour f) (minute f) (second f))
  | None => None
  end.

(** [zonedLocalToEpochMs(localIso, tz)] *)
Definition zonedLocalToEpochMs (P : Platform) (localIso tz : string) : exc num :=
  let base := baseOf localIso in
  off <- getOffsetMinutesAt P base tz ;;
  let guess := nsub base (nmul off (ofZ 60000)) in
  off <- getOffsetMinutesAt P guess tz ;;
  Ok (nsub base (nmul off (ofZ 60000))).

(** ** The flight scheduler ([formatUpcomingFlights]) *)

(** A data line of [travel_flights.csv] after [parseCSV], by column name;
    [None] is [undefined] (the column is not in the header). *)
Record FlightRow : Type := {
  airline : option string;
  flight_number : option string;
  departure_city : option string;
  arrival_city : option string;
  departure_time : option string;
  arrival_time : option string;
  departure_timezone : option string;
  arrival_timezone : option string;
  confirmation : option string
}.

(** A row with its computed departure instant. *)
Record Flight : Type := { row : FlightRow; depEpoch : num }.

Record FlightOpts : Type := {
  userTz : option string;
  toCity : option string;
  fromCity : option string;
  city : option string;
  todayOnly : bool;
  nextOnly : bool
}.

(** [{ userTz: "Australia/Sydney" }] *)
Definition baseOpts : FlightOpts :=
  {| userTz := Some "Australia/Sydney"; toCity := None; fromCity := None;
     city := None; todayOnly := false; nextOnly := false |}.

(** What the engine reads from outside: the flights file, the show data
    source and the answers table. *)
Record World : Type := {
  (** the data lines of the flights file; [None] when the file is missing
      or has no line after its header *)
  flightsCsv : option (list FlightRow);
  (** [(await dataSource.getShows({})).shows] *)
  getShows : exc (list ShowRecord);
  (** the [answer_template] column of the rows the query of
      [resolveAnswer] returns for a term and a locale *)
  dbQuery : string -> string -> exc (list jsval)
}.

(** Truthiness of a string property that may be [undefined]. *)
Definition given (s : option string) : bool :=
  match s with Some t => negb (isEmpty t) | None => false end.

(** [s || ""] *)
Definition strOr (s : option string) : string :=
  match s with Some t => t | None => "" end.

(** [a || b] on string properties. *)
Definition firstGiven (a b : option string) : option string :=
  if given a then a else b.

(** The rows as built from the parsed lines: the departure zone defaults to
    the user's zone, then to Sydney; rows without a departure time go. *)
Definition rowsOf (opts : FlightOpts) (lines : list FlightRow) : list FlightRow :=
  filter (fun r => given (departure_time r))
    (map (fun a =>
            {| airline := airline a;
               flight_number := flight_number a;
               departure_city := departure_city a;
               arrival_city := arrival_city a;
               departure_time := departure_time a;
               arrival_time := arrival_time a;
               departure_timezone :=
                 firstGiven (departure_timezone a)
                   (firstGiven (userTz opts) (Some "Australia/Sydney"));
               arrival_timezone := arrival_timezone a;
               confirmation := confirmation a |})
         lines).

Fixpoint mapM {A B} (f : A -> exc B) (l : list A) : exc (list B) :=
  match l with
  | [] => Ok []
  | x :: l' => y <- f x ;; ys <- mapM f l' ;; Ok (y :: ys)
  end.

Fixpoint filterM {A} (f : A -> exc bool) (l : list A) : exc (list A) :=
  match l with
  | [] => Ok []
  | x :: l' =>
      b <- f x ;; ys <- filterM f l' ;; Ok (if b then x :: ys else ys)
  end.

Definition attachEpoch (P : Platform) (r : FlightRow) : exc Flight :=
  e <- zonedLocalToEpochMs P (strOr (departure_time r))
                             (strOr (departure_timezone r)) ;;
  Ok {| row := r; depEpoch := e |}.

(** [(r.arrival_city || "").toLowerCase() === c] and its like. *)
Definition cityIs (field : option string) (c : string) : bool :=
  String.eqb (toLowerCase (strOr field)) c.

(** The one directional filter: [toCity], else [fromCity], else [city]. *)
Definition directional (opts : FlightOpts) (lst : list Flight) : list Flight :=
  if given (toCity opts) then
    let c := toLowerCase (strOr (toCity opts)) in
    filter (fun r => cityIs (arrival_city (row r)) c) lst
  else if given (fromCity opts) then
    let c := toLowerCase (strOr (fromCity opts)) in
    filter (fun r => cityIs (departure_city (row r)) c) lst
  else if given (city opts) then
    let c := toLowerCase (strOr (city opts)) in
    filter (fun r => cityIs (departure_city (row r)) c
                     || cityIs (arrival_city (row r)) c) lst
  else lst.

(** The sign of [a.depEpoch - b.depEpoch]; with a [NaN] the comparator is
    neither negative nor positive. *)
Definition byDeparture (a b : Flight) : comparison :=
  match depEpoch a, depEpoch b with
  | Some x, Some y => Qcompare x y
  | _, _ => Eq
  end.

Definition sameDate (a b : Parts) : bool :=
  (year a =? year b) && (month a =? month b) && (day a =? day b).

(** The [todayOnly] filter: the date of the departure in the user's zone
    is the date of now in that zone. *)
Definition todayFilter (P : Platform) (opts : FlightOpts) (lst : list Flight)
  : exc (list Flight) :=
  match timeZone P (strOr (firstGiven (userTz opts) (Some "Australia/Sydney"))) with
  | None => Throw (RangeError "Invalid time zone specified")
  | Some z =>
      let today := formatToParts z (newDate P) in
      filterM
        (fun r =>
           match depEpoch r with
           | Some q => Ok (sameDate (formatToParts z (truncQ q)) today)
           | None => Throw (RangeError "Invalid time value")
           end)
        lst
  end.

(** [list.slice(0, limit)] *)
Definition sliceTo {A} (limit : Z) (l : list A) : list A :=
  if 0 <=? limit then firstn (Z.to_nat limit) l
  else firstn (Z.to_nat (Z.of_nat (List.length l) + limit)) l.

(** The value of the variable [list] when the text is rendered (empty when the function
    returns early with no flights). *)
Definition upcomingList (P : Platform) (W : World) (limit : Z) (opts : FlightOpts)
  : exc (list Flight) :=
  match flightsCsv W with
  | None => Ok []
  | Some lines =>
      let rows := rowsOf opts lines in
      let nowUtc := dateNow P in
      lst <- mapM (attachEpoch P) rows ;;
      let lst := directional opts lst in
      let lst :=
        sortBy byDeparture (filter (fun r => nge (depEpoch r) (ofZ nowUtc)) lst) in
      lst <- (if todayOnly opts then todayFilter P opts lst else Ok lst) ;;
      match lst with
      | [] => Ok []
      | first :: _ =>
          let lst := if nextOnly opts then [first] else lst in
          let lst :=
            if negb (limit =? 0) && (limit <? Z.of_nat (List.length lst))
            then sliceTo limit lst else lst in
          Ok lst
      end
  end.

Definition nl : string := String (ascii_of_nat 10) EmptyString.

(** [(s || "").trim()] *)
Definition pad (s : option string) : string := trim (strOr s).

Definition instantOf (r : Flight) : Z :=
  match depEpoch r with Some q => truncQ q | None => 0 end.

Definition renderFlight (P : Platform) (i : nat) (r : Flight) : string :=
  let f := row r in
  let tz := strOr (departure_timezone f) in
  nl ++ decimal (Z.of_nat i + 1) ++ ". " ++ prettyDate P (instantOf r) tz ++ nl
  ++ "    ✈️ " ++ pad (airline f) ++ " " ++ pad (flight_number f) ++ " — "
  ++ pad (departure_city f) ++ " → " ++ pad (arrival_city f) ++ nl
  ++ "    🕘 Dep: " ++ prettyTime P (instantOf r) tz ++ " "
  ++ pad (departure_timezone f) ++ nl
  ++ (if given (arrival_time f)
      then "    🕒 Arr: " ++ trim (slice 11 16 (strOr (arrival_time f))) ++ " "
           ++ pad (arrival_timezone f) ++ nl
      else "")
  ++ (if given (confirmation f)
      then "    🔖 Conf: " ++ pad (confirmation f) ++ nl
      else "").

Fixpoint renderFrom (P : Platform) (i : nat) (l : list Flight) : string :=
  match l with
  | [] => ""
  | r :: l' => renderFlight P i r ++ renderFrom P (S i) l'
  end.

(** [formatUpcomingFlights(limit, opts)] *)
Definition formatUpcomingFlights (P : Platform) (W : World) (limit : Z)
  (opts : FlightOpts) : exc string :=
  lst <- upcomingList P W limit opts ;;
  match lst with
  | [] => Ok "I found 0 flights."
  | _ :: _ =>
      let n := List.length lst in
      Ok ("I found " ++ decimal (Z.of_nat n) ++ " flight"
          ++ (if (n =? 1)%nat then "" else "s") ++ ":" ++ nl
          ++ renderFrom P 0 lst)
  end.

(** ** The retrieval orchestrator ([retrieveData]) *)

Inductive Retrieved : Type :=
| ContextualTerm (term city field : string) (value : jsval)
| ContextualLocation (term city field : string) (value : jsval) (place : string)
| GenericTerm (term : string) (definition : jsval)
| TravelSchedule (text : string).

(** [resolveAnswer(term_id, locale)]: the template of the first row when
    there is one and it is truthy, else [null]. *)
Definition resolveAnswer (W : World) (term_id locale : string) : exc (option jsval) :=
  rows <- dbQuery W term_id locale ;;
  match rows with
  | v :: _ => Ok (if truthy v then Some v else None)
  | [] => Ok None
  end.

(** [v.toLowerCase()]: a method of strings only. *)
Definition toLowerCaseOf (v : jsval) : exc string :=
  match v with
  | VStr s => Ok (toLowerCase s)
  | _ => Throw (TypeError "toLowerCase is not a function")
  end.

Fixpoint findM {A} (f : A -> exc bool) (l : list A) : exc (option A) :=
  match l with
  | [] => Ok None
  | x :: l' => b <- f x ;; if b then Ok (Some x) else findM f l'
  end.

(** [getShowByCity(city)] for a truthy [city]. *)
Definition getShowByCity (W : World) (city : string) : exc (option ShowRecord) :=
  shows <- getShows W ;;
  let c := toLowerCase city in
  findM (fun s =>
           low <- toLowerCaseOf (orElse (getProp s "city") (VStr "")) ;;
           Ok (String.eqb low c))
        shows.

(** [xs.join(", ")] *)
Fixpoint joinWith (sep : string) (xs : list string) : string :=
  match xs with
  | [] => ""
  | [x] => x
  | x :: xs' => x ++ sep ++ joinWith sep xs'
  end.

(** [[s.venue_name, s.city, s.state || s.region, s.country].filter(Boolean)] *)
Definition locParts (s : ShowRecord) : list jsval :=
  filter truthy
    [ getProp s "venue_name"; getProp s "city";
      orElse (getProp s "state") (getProp s "region"); getProp s "country" ].

Definition placeOf (s : ShowRecord) : string :=
  joinWith ", " (map toStr (locParts s)).

(** The loop that classifies the entities: the first one of the term
    vocabulary, the first one of the city vocabulary. *)
Definition classify (this : Engine) (ents : list string)
  : option string * option string :=
  fold_left
    (fun '(term, city) e =>
       let term :=
         if negb (given term) && arrayIncludes (industryTerms this) e
         then Some e else term in
       let city :=
         if negb (given city) && arrayIncludes (cities this) e
         then Some e else city in
       (term, city))
    ents (None, None).

(** [/\bflight(s)?\b/] *)
Definition reFlight : regex :=
  RSeq RWordB (RSeq (lit "flight") (RSeq (ROpt (RChar "s")) RWordB)).

(** The generic definition: [genericTerm] when the answers table has one. *)
Definition genericLookup (W : World) (term locale : string) : exc (option Retrieved) :=
  definition <- resolveAnswer W term locale ;;
  match definition with
  | Some d => Ok (Some (GenericTerm term d))
  | None => Ok None
  end.

(** The options of the flights listing asked by [retrieveData]. *)
Definition flightOptsFor (city : option string) : FlightOpts :=
  if given city
  then {| userTz := Some "Australia/Sydney"; toCity := city; fromCity := None;
          city := None; todayOnly := false; nextOnly := false |}
  else baseOpts.

(** The branch of [retrieveData] for a query that names a city. *)
Definition retrieveForCity (this : Engine) (W : World)
  (verb : option string) (q : string) (term : option string) (city : string)
  : exc (option Retrieved) :=
  show <- getShowByCity W city ;;
  match show with
  | Some show =>
      let term :=
        if negb (given term)
        then match guessTermFromShowKeys q show with
             | Some guessed => if isEmpty guessed then term else Some guessed
             | None => term
             end
        else term in
      let hit :=
        if given term then findFieldForTerm (Some show) term verb else None in
      match hit with
      | Some hit =>
          if verbIs verb "where is"
          then Ok (Some (ContextualLocation (strOr term) city (k hit) (val hit)
                                            (placeOf show)))
          else Ok (Some (ContextualTerm (strOr term) city (k hit) (val hit)))
      | None =>
          if given term && arrayIncludes (industryTerms this) (strOr term)
          then genericLookup W (strOr term) "en-AU"
          else Ok None
      end
  | None =>
      if given term && arrayIncludes (industryTerms this) (strOr term)
      then genericLookup W (strOr term) "en-AU"
      else Ok None
  end.

(** [retrieveData(parsed)] *)
Definition retrieveData (this : Engine) (P : Platform) (W : World)
  (parsed : ParsedQuery) : exc (option Retrieved) :=
  let verb := verb parsed in
  let entities := entities parsed in
  let normalized := normalized parsed in
  if (List.length entities =? 0)%nat && isEmpty normalized then Ok None else
  let '(term, city) := classify this entities in
  let q := normalized in
  let mentionsFlight := test reFlight q in
  if mentionsFlight then
    text <- formatUpcomingFlights P W 10 (flightOptsFor city) ;;
    Ok (Some (TravelSchedule text))
  else if given city then
    retrieveForCity this W verb q term (strOr city)
  else if given term then
    genericLookup W (strOr term) "en-AU"
  else Ok None.

(** ** The response generator *)

Definition FALLBACKS : list string :=
  [ "Sorry, I don’t have that info yet. Try another term?";
    "Hmm, I can’t find that. Want to ask about show times or venues?";
    "I don’t have that, but I can help with schedules, venues, or merch." ].

Definition fallbackText (P : Platform) : string :=
  nth (randomIndex P mod 3) FALLBACKS "".

(** [generateResponseText(retrieved)] *)
Definition generateResponseText (P : Platform) (retrieved : option Retrieved)
  : string :=
  match retrieved with
  | None => fallbackText P
  | Some (TravelSchedule text) =>
      if isEmpty text then fallbackText P else text
  | Some (ContextualLocation term city _ _ place) =>
      "The " ++ term ++ " for the show in " ++ city ++ " is at " ++ place ++ "."
  | Some (ContextualTerm term city field value) =>
      let prefix := if includes (toLowerCase field) "time" then "at " else "" in
      "The " ++ term ++ " for the show in " ++ city ++ " is " ++ prefix
      ++ toStr value ++ "."
  | Some (GenericTerm term definition) =>
      "The official definition for " ++ term ++ " is: " ++ toStr definition
  end.

(** [lineForShow(s, i)] *)
Definition lineForShow (P : Platform) (s : ShowRecord) (i : nat) : string :=
  let tzSuffix :=
    if truthy (getProp s "timezone")
    then " " ++ toStr (getProp s "timezone") else "" in
  let bits := [ decimal (Z.of_nat i) ++ ". " ++ fmtDate P (getProp s "date") ] in
  let bits :=
    match locParts s with
    | [] => bits
    | _ :: _ => push bits ("    📍 " ++ placeOf s)
    end in
  let bits :=
    if truthy (getProp s "doors_time")
    then push bits ("    🚪 Doors: " ++ toStr (getProp s "doors_time") ++ tzSuffix)
    else bits in
  let bits :=
    if truthy (getProp s "show_time")
    then push bits ("    🎫 Show: " ++ toStr (getProp s "show_time") ++ tzSuffix)
    else bits in
  let bits :=
    if truthy (getProp s "ticket_status")
    then push bits ("    🎟️ " ++ toStr (getProp s "ticket_status"))
    else bits in
  joinWith nl bits.

Fixpoint linesFrom (P : Platform) (i : nat) (l : list ShowRecord) : list string :=
  match l with
  | [] => []
  | s :: l' => lineForShow P s i :: linesFrom P (S i) l'
  end.

(** What a classifier hands to the generator. *)
Record Intent : Type := {
  intent_type : option string;
  term_id : option string;
  confidence : option Q;
  (** [intent.entities && intent.entities.term_id] *)
  entities_term_id : option string;
  original_query : option jsval;
  error : option string
}.

(** The [member] argument: a string, an object, or nothing. *)
Inductive Member : Type :=
| MemberStr (s : string)
| MemberObj (props : list (string * jsval))
| MemberNone.

Definition memberStrOf (member : Member) : jsval :=
  match member with
  | MemberStr s => VStr s
  | MemberObj o =>
      orElse
        (orElse (getProp o "memberId")
           (orElse (getProp o "member_id")
              (orElse (getProp o "id") (getProp o "identifier"))))
        (VStr "guest")
  | MemberNone => VStr "guest"
  end.

Record Response : Type := {
  type : string;
  text : string;
  rerror : option string
}.

Definition respond (ty txt : string) : Response :=
  {| type := ty; text := txt; rerror := None |}.

(** The sign of [new Date(a.date) - new Date(b.date)]. *)
Definition byDate (P : Platform) (a b : ShowRecord) : comparison :=
  match dateOf P (getProp a "date"), dateOf P (getProp b "date") with
  | Some x, Some y => x ?= y
  | _, _ => Eq
  end.

(** [/\bnext\s+show\b/i] *)
Definition reNextShow : regex :=
  RSeq RWordB (RSeq (lit "next") (RSeq (RPlus (RClass isSpace))
                                      (RSeq (lit "show") RWordB))).

(** [case "show_schedule"] *)
Definition showSchedule (P : Platform) (W : World) (message : jsval)
  (memberStr : jsval) : exc Response :=
  shows <- getShows W ;;
  let today := newDate P in
  let upcoming :=
    sortBy (byDate P)
      (filter (fun s =>
                 truthy (getProp s "date") &&
                 match dateOf P (getProp s "date") with
                 | Some d => today <=? d
                 | None => false
                 end)
              shows) in
  match upcoming with
  | [] => Ok (respond "schedule"
                ("No upcoming shows found (for: " ++ toStr memberStr ++ ")"))
  | _ :: _ =>
      let wantNext := testi reNextShow (toStr (orElse message (VStr ""))) in
      let lst := if wantNext then firstn 1 upcoming else firstn 10 upcoming in
      let lines := linesFrom P 1 lst in
      let n := List.length lst in
      let header :=
        "I found " ++ decimal (Z.of_nat n) ++ " "
        ++ (if (n =? 1)%nat then "show" else "shows") ++ ":" ++ nl ++ nl in
      Ok (respond "schedule" (header ++ joinWith nl lines))
  end.

(** The argument of [parseMessage(message = "")]: the default for
    [undefined], else [String(message)]. *)
Definition messageText (message : jsval) : string :=
  match message with
  | VUndefined => ""
  | v => toStr v
  end.

(** [case "term_lookup"] *)
Definition termLookup (this : Engine) (P : Platform) (W : World)
  (message : jsval) (intent : Intent) : exc Response :=
  let locale :=
    strOr (firstGiven (envLocale P) (Some "en-AU")) in
  let parsed := parseMessage this (messageText message) in
  retrieved <- retrieveData this P W parsed ;;
  retrieved <-
    match retrieved with
    | Some r => Ok (Some r)
    | None =>
        let termId := firstGiven (term_id intent) (entities_term_id intent) in
        termId <-
          (if negb (given termId) && truthy message then
             normalizedMessage <- toLowerCaseOf (orElse message (VStr "")) ;;
             let foundTerm :=
               arrayFind (fun term => includes normalizedMessage term)
                         (industryTerms this) in
             Ok (if given foundTerm then foundTerm else termId)
           else Ok termId) ;;
        if given termId then genericLookup W (strOr termId) locale
        else Ok None
    end ;;
  Ok (respond "answer" (generateResponseText P retrieved)).

(** [/\bnext\b/] and [/\btoday\b/] *)
Definition reNext : regex := RSeq RWordB (RSeq (lit "next") RWordB).
Definition reToday : regex := RSeq RWordB (RSeq (lit "today") RWordB).

(** The options and the limit the travel handler derives from the lower-cased
    message. *)
Definition travelOptions (cities : list string) (normalizedMessage : string)
  : FlightOpts * Z :=
  let opts := baseOpts in
  let limit := 10 in
  let fromCityMatch :=
    arrayFind (fun city => includes normalizedMessage ("from " ++ city)) cities in
  if given fromCityMatch then
    ({| userTz := userTz opts; toCity := toCity opts; fromCity := fromCityMatch;
        city := city opts; todayOnly := todayOnly opts;
        nextOnly := nextOnly opts |}, 50)
  else
    let toCityMatch :=
      arrayFind (fun city => includes normalizedMessage ("to " ++ city)) cities in
    if given toCityMatch then
      ({| userTz := userTz opts; toCity := toCityMatch; fromCity := fromCity opts;
          city := city opts; todayOnly := todayOnly opts;
          nextOnly := nextOnly opts |}, 50)
    else if test reNext normalizedMessage then
      ({| userTz := userTz opts; toCity := toCity opts; fromCity := fromCity opts;
          city := city opts; todayOnly := todayOnly opts; nextOnly := true |}, 1)
    else if test reToday normalizedMessage then
      ({| userTz := userTz opts; toCity := toCity opts; fromCity := fromCity opts;
          city := city opts; todayOnly := true; nextOnly := nextOnly opts |}, 50)
    else
      let genericCityMatch :=
        arrayFind (fun city => includes normalizedMessage city) cities in
      if given genericCityMatch then
        ({| userTz := userTz opts; toCity := toCity opts; fromCity := fromCity opts;
            city := genericCityMatch; todayOnly := todayOnly opts;
            nextOnly := nextOnly opts |}, 50)
      else (opts, limit).

(** [case "travel"], with its own [try]/[catch]. *)
Definition travel (cities : list string) (P : Platform) (W : World)
  (message : jsval) : exc Response :=
  tryCatch
    (normalizedMessage <- toLowerCaseOf (orElse message (VStr "")) ;;
     let '(opts, limit) := travelOptions cities normalizedMessage in
     text <- formatUpcomingFlights P W limit opts ;;
     Ok (respond "schedule" text))
    (fun e => Ok (respond "error" ("Flights lookup failed: " ++ emessage e))).

(** [generateResponse({ message, intent, context, member })]; [intent] is
    [None] for a missing intent. *)
Definition generateResponse (this : Engine) (P : Platform) (W : World)
  (message : jsval) (intent : option Intent) (member : Member) : exc Response :=
  tryCatch
    (let memberStr := memberStrOf member in
     match intent with
     | None => Ok (respond "fallback" "I'm not sure how to handle that yet.")
     | Some intent =>
         if negb (given (intent_type intent))
         then Ok (respond "fallback" "I'm not sure how to handle that yet.")
         else
           let ty := strOr (intent_type intent) in
           if String.eqb ty "help" then
             Ok (respond "help"
                   "You can ask me about shows, schedules, venues, or general tour details.")
           else if String.eqb ty "show_schedule" then
             showSchedule P W message memberStr
           else if String.eqb ty "term_lookup" then
             termLookup this P W message intent
           else if String.eqb ty "travel" then
             travel (cities this) P W message
           else
             Ok (respond "unknown"
                   ("I don’t have a handler for intent: " ++ ty))
     end)
    (fun err =>
       Ok {| type := "error";
             text := "Sorry, something went wrong while generating a response.";
             rerror := Some (errorText err) |}).

(** The city list of the engine variant with a fixed vocabulary. *)
Definition CITIES : list string :=
  [ "adelaide"; "perth"; "sydney"; "auckland"; "wellington"; "singapore";
    "brisbane"; "melbourne"; "dubai" ].

(** ** The intent classifier ([matchIntent]) *)

(** The helpers [matchIntent] imports from modules that are not among the
    sources ([cleanName] of the text utilities, [normalize] of the
    normalizer, [lookupExact] and [lookupInSentence] of the term index).
    Each may throw; a lookup returns the [term_id] of its hit, or [None]
    for a falsy result. *)
Record Helpers : Type := {
  cleanName : jsval -> exc jsval;
  normalize : jsval -> exc jsval;
  lookupExact : jsval -> exc (option string);
  lookupInSentence : jsval -> exc (option string)
}.

Definition oneOf (c1 c2 : ascii) : regex :=
  RClass (fun c => Ascii.eqb c c1 || Ascii.eqb c c2).

(** [/schedule|showtime|what time.*show/] *)
Definition reSchedule : regex :=
  alts [ lit "schedule"; lit "showtime";
         RSeq (lit "what time") (RSeq (RStar RAny) (lit "show")) ].

(** [/load in|load-out|sound.?check|curfew|setlist/] *)
Definition reProduction : regex :=
  alts [ lit "load in"; lit "load-out";
         RSeq (lit "sound") (RSeq (ROpt RAny) (lit "check"));
         lit "curfew"; lit "setlist" ].

(** [/flight|airport|travel|hotel|check[- ]?in|check[- ]?out/] *)
Definition reTravel : regex :=
  alts [ lit "flight"; lit "airport"; lit "travel"; lit "hotel";
         RSeq (lit "check") (RSeq (ROpt (oneOf "-" " ")) (lit "in"));
         RSeq (lit "check") (RSeq (ROpt (oneOf "-" " ")) (lit "out")) ].

(** [/merch|merchandise|t[- ]?shirts?|hoodies?|seller|stand/] *)
Definition reMerch : regex :=
  alts [ lit "merch"; lit "merchandise";
         RSeq (RChar "t") (RSeq (ROpt (oneOf "-" " "))
                                (RSeq (lit "shirt") (ROpt (RChar "s"))));
         RSeq (lit "hoodie") (ROpt (RChar "s"));
         lit "seller"; lit "stand" ].

(** [/budget|costs?|expenses?|financial|accounting|invoice|payment/] *)
Definition reFinancial : regex :=
  alts [ lit "budget"; RSeq (lit "cost") (ROpt (RChar "s"));
         RSeq (lit "expense") (ROpt (RChar "s"));
         lit "financial"; lit "accounting"; lit "invoice"; lit "payment" ].

(** [/press|media|interview|photographer|photo\s?pass|press commitments?/] *)
Definition reMedia : regex :=
  alts [ lit "press"; lit "media"; lit "interview"; lit "photographer";
         RSeq (lit "photo") (RSeq (ROpt (RClass isSpace)) (lit "pass"));
         RSeq (lit "press commitment") (ROpt (RChar "s")) ].

(** [/^(help|what can i ask|what can you do)/] *)
Definition reHelp : regex :=
  RSeq RBol (alts [ lit "help"; lit "what can i ask"; lit "what can you do" ]).

Definition mkIntent (ty : option string) (conf : Q) : Intent :=
  {| intent_type := ty; term_id := None; confidence := Some conf;
     entities_term_id := None; original_query := None; error := None |}.

(** The keyword rules, in the order of the [if]/[else if] chain. *)
Definition rules : list (regex * string * Q) :=
  [ (reSchedule, "show_schedule", 95 # 100);
    (reProduction, "production", 9 # 10);
    (reTravel, "travel", 9 # 10);
    (reMerch, "merch", 9 # 10);
    (reFinancial, "financial", 9 # 10);
    (reMedia, "media", 9 # 10);
    (reHelp, "help", 99 # 100) ].

(** The body of the [try] block: the first rule that matches, else the
    default intent. *)
Definition applyRules (q : string) : Intent :=
  match arrayFind (fun '(re, _, _) => test re q) rules with
  | Some (_, ty, conf) => mkIntent (Some ty) conf
  | None => mkIntent None 0
  end.

(** [arguments[0] ?? ""] *)
Definition inputOf (content : jsval) : jsval :=
  match content with
  | VUndefined | VNull => VStr ""
  | v => v
  end.

(** [matchIntent(content, options, member)] *)
Definition matchIntent (H : Helpers) (content : jsval) : exc Intent :=
  cleaned <- cleanName H content ;;
  q <- toLowerCaseOf cleaned ;;
  let _input := inputOf content in
  _norm <- normalize H _input ;;
  exact <- lookupExact H _norm ;;
  _hit <-
    match exact with
    | Some h => Ok (Some h)
    | None => lookupInSentence H _norm
    end ;;
  match _hit with
  | Some tid =>
      Ok {| intent_type := Some "term_lookup"; term_id := Some tid;
            confidence := None; entities_term_id := None;
            original_query := None; error := None |}
  | None =>
      tryCatch (Ok (applyRules q))
        (fun e =>
           Ok {| intent_type := None; term_id := None; confidence := Some 0%Q;
                 entities_term_id := None; original_query := Some content;
                 error := Some (errorText e) |})
  end.

(** ** Sample data *)

Module Samples.

(** America/New_York around 2025: UTC-5, and UTC-4 from 2025-03-09 07:00 UTC
    to 2025-11-02 06:00 UTC. *)
Definition newYork : Zone := fun u =>
  if u <? DateUTC 2025 2 9 7 0 0 then -18000000
  else if u <? DateUTC 2025 10 2 6 0 0 then -14400000
  else -18000000.

(** Australia/Sydney around 2025: UTC+11, and UTC+10 from 2025-04-05 16:00
    UTC to 2025-10-04 16:00 UTC. *)
Definition sydney : Zone := fun u =>
  if u <? DateUTC 2025 3 5 16 0 0 then 39600000
  else if u <? DateUTC 2025 9 4 16 0 0 then 36000000
  else 39600000.

Definition zones (name : string) : option Zone :=
  if String.eqb name "America/New_York" then Some newYork
  else if String.eqb name "Australia/Sydney" then Some sydney
  else None.

(** A platform whose clock reads 2025-01-01 00:00 UTC. *)
Definition platform : Platform :=
  {| timeZone := zones;
     dateNow := DateUTC 2025 0 1 0 0 0;
     newDate := DateUTC 2025 0 1 0 0 0;
     dateOf := fun _ => None;
     prettyDate := fun _ _ => "";
     prettyTime := fun _ _ => "";
     fmtDate := fun _ => "";
     randomIndex := 0;
     envLocale := None |}.

Definition flight (code from to when : string) : FlightRow :=
  {| airline := Some "QF"; flight_number := Some code;
     departure_city := Some from; arrival_city := Some to;
     departure_time := Some when; arrival_time := None;
     departure_timezone := Some "Australia/Sydney";
     arrival_timezone := None; confirmation := None |}.

(** A flights file with three departures after the clock of [platform]. *)
Definition world : World :=
  {| flightsCsv :=
       Some [ flight "401" "Sydney" "Melbourne" "2025-03-15T09:00:00";
              flight "402" "Melbourne" "Sydney" "2025-03-17T18:30:00";
              flight "142" "Sydney" "Auckland" "2025-02-01T07:15:00" ];
     getShows := Ok [];
     dbQuery := fun _ _ => Ok [] |}.

(** Modelled from the spec: the helpers of the normalizer, the term index
    and the text utilities, which are not among the sources.  The text is
    normalized as the parser does; the exact match looks the whole text up
    in the vocabulary; the sentence match takes the first vocabulary entry
    the text contains.  [cleanName], of which the spec says nothing, trims
    a string and throws on any other value, as a string method would. *)
Definition helpers (vocabulary : list string) : Helpers :=
  {| cleanName := fun v =>
       match v with
       | VStr s => Ok (VStr (trim s))
       | _ => Throw (TypeError "name.trim is not a function")
       end;
     normalize := fun v => Ok (VStr (normalizeMessage (toStr v)));
     lookupExact := fun n =>
       Ok (arrayFind (fun t => String.eqb t (toStr n)) vocabulary);
     lookupInSentence := fun n =>
       Ok (arrayFind (fun t => includes (toStr n) t) vocabulary) |}.


End Samples.

(** ** Predicates of the specification *)

(** [h] is the first element of [l] with the highest score. *)
Definition firstMax (l : list Hit) (h : Hit) : Prop :=
  exists pre post,
    l = (pre ++ h :: post)%list /\
    (forall x, In x pre -> score x < score h) /\
    (forall x, In x post -> score x <= score h).

(** [h] is the last element of [l] with the highest score. *)
Definition lastMax (l : list Hit) (h : Hit) : Prop :=
  exists pre post,
    l = (pre ++ h :: post)%list /\
    (forall x, In x pre -> score x <= score h) /\
    (forall x, In x post -> score x < score h).

(** [x] is the first element of [l] that satisfies [f]. *)
Definition firstSuch {A} (f : A -> bool) (l : list A) (x : A) : Prop :=
  exists pre post,
    l = (pre ++ x :: post)%list /\ f x = true /\
    (forall y, In y pre -> f y = false).

(** A preferred time field that the fallback may return: an own property
    whose value is not blank. *)
Definition presentPref (show : ShowRecord) (p : string) : bool :=
  hasOwnProperty show p && nonBlank (orElse (getProp show p) (VStr "")).

(** The directional filter a record has to pass: the arrival city for
    [toCity], else the departure city for [fromCity], else either city for
    [city]; every record passes when none of the three is given. *)
Definition dirMatch (opts : FlightOpts) (r : Flight) : bool :=
  if given (toCity opts) then
    cityIs (arrival_city (row r)) (toLowerCase (strOr (toCity opts)))
  else if given (fromCity opts) then
    cityIs (departure_city (row r)) (toLowerCase (strOr (fromCity opts)))
  else if given (city opts) then
    cityIs (departure_city (row r)) (toLowerCase (strOr (city opts)))
    || cityIs (arrival_city (row r)) (toLowerCase (strOr (city opts)))
  else true.

(** The departure is not in the past. *)
Definition notPast (P : Platform) (r : Flight) : bool :=
  nge (depEpoch r) (ofZ (dateNow P)).

(** [a] departs no later than [b]. *)
Definition departsNoLater (a b : Flight) : Prop :=
  match depEpoch a, depEpoch b with
  | Some x, Some y => (x <= y)%Q
  | _, _ => False
  end.

(** The number of filters a set of options carries. *)
Definition filtersSet (opts : FlightOpts) : nat :=
  ((if given (toCity opts) then 1 else 0)
   + (if given (fromCity opts) then 1 else 0)
   + (if given (city opts) then 1 else 0)
   + (if todayOnly opts then 1 else 0)
   + (if nextOnly opts then 1 else 0))%nat.

(** A row the converter accepts: its zone is known to the platform and its
    departure time has six numeric fields. *)
Definition convertible (P : Platform) (r : FlightRow) : Prop :=
  (exists z, timeZone P (strOr (departure_timezone r)) = Some z) /\
  (exists f, localFields (strOr (departure_time r)) = Some f).

(** The last character of [s], or [prev] when [s] is empty. *)
Fixpoint lastOf (prev : option ascii) (s : string) : option ascii :=
  match s with
  | EmptyString => prev
  | String c s' => lastOf (Some c) s'
  end.

(** [w] occurs in [s] as a word of its own: neither the character before
    the occurrence nor the one after it is a word character. *)
Definition standaloneWord (w s : string) : Prop :=
  exists pre post,
    s = pre ++ w ++ post /\
    wordAt (lastOf None pre) = false /\
    wordAt (headOf post) = false.

(** [baseOpts] with one option set. *)
Definition withFrom (c : string) : FlightOpts :=
  {| userTz := Some "Australia/Sydney"; toCity := None; fromCity := Some c;
     city := None; todayOnly := false; nextOnly := false |}.
Definition withTo (c : string) : FlightOpts :=
  {| userTz := Some "Australia/Sydney"; toCity := Some c; fromCity := None;
     city := None; todayOnly := false; nextOnly := false |}.
Definition withCity (c : string) : FlightOpts :=
  {| userTz := Some "Australia/Sydney"; toCity := None; fromCity := None;
     city := Some c; todayOnly := false; nextOnly := false |}.
Definition withNext : FlightOpts :=
  {| userTz := Some "Australia/Sydney"; toCity := None; fromCity := None;
     city := None; todayOnly := false; nextOnly := true |}.
Definition withToday : FlightOpts :=
  {| userTz := Some "Australia/Sydney"; toCity := None; fromCity := None;
     city := None; todayOnly := true; nextOnly := false |}.

(** No city of the list follows [prefix] in the message. *)
Definition noCityAfter (prefix msg : string) (cities : list string) : Prop :=
  forall c, In c cities -> includes msg (prefix ++ c) = false.

(** The decision table of the travel handler: the tests in their order, the
    first hit deciding the option and the limit. *)
Inductive TravelChoice (cities : list string) (msg : string)
  : FlightOpts -> Z -> Prop :=
| ChooseFrom c :
    firstSuch (fun c => includes msg ("from " ++ c)) cities c ->
    TravelChoice cities msg (withFrom c) 50
| ChooseTo c :
    noCityAfter "from " msg cities ->
    firstSuch (fun c => includes msg ("to " ++ c)) cities c ->
    TravelChoice cities msg (withTo c) 50
| ChooseNext :
    noCityAfter "from " msg cities -> noCityAfter "to " msg cities ->
    standaloneWord "next" msg ->
    TravelChoice cities msg withNext 1
| ChooseToday :
    noCityAfter "from " msg cities -> noCityAfter "to " msg cities ->
    ~ standaloneWord "next" msg -> standaloneWord "today" msg ->
    TravelChoice cities msg withToday 50
| ChooseCity c :
    noCityAfter "from " msg cities -> noCityAfter "to " msg cities ->
    ~ standaloneWord "next" msg -> ~ standaloneWord "today" msg ->
    firstSuch (fun c => includes msg c) cities c ->
    TravelChoice cities msg (withCity c) 50
| ChooseNone :
    noCityAfter "from " msg cities -> noCityAfter "to " msg cities ->
    ~ standaloneWord "next" msg -> ~ standaloneWord "today" msg ->
    noCityAfter "" msg cities ->
    TravelChoice cities msg baseOpts 10.


(** What the fast path of [matchIntent] returns for a hit. *)
Definition fastPathIntent (tid : string) : Intent :=
  {| intent_type := Some "term_lookup"; term_id := Some tid;
     confidence := None; entities_term_id := None;
     original_query := None; error := None |}.

(** The first instant of the year 100: from there on [Date.UTC] reads a
    year as it is. *)
Definition year100 : Z := DateUTC 100 0 1 0 0 0.

(** The record has a departure instant that is a number. *)
Definition timed (r : Flight) : Prop := depEpoch r <> None.


(** * Properties *)

(** ** The calendar *)

Section Calendar.

Lemma doe_range z :
  let doe := z - z / 146097 * 146097 in 0 <= doe <= 146096.
Proof. intro doe; subst doe. Z.div_mod_to_equations. lia. Qed.

Lemma yoe_range doe :
  0 <= doe <= 146096 ->
  let yoe := (doe - doe / 1460 + doe / 36524 - doe / 146096) / 365 in
  0 <= yoe <= 399 /\ 0 <= doe - (365 * yoe + yoe / 4 - yoe / 100) <= 365.
Proof. intros H yoe; subst yoe. Z.div_mod_to_equations. lia. Qed.

Lemma mp_range doy :
  0 <= doy <= 365 ->
  let mp := (5 * doy + 2) / 153 in
  0 <= mp <= 11 /\ 1 <= doy - (153 * mp + 2) / 5 + 1 <= 31.
Proof. intros H mp; subst mp. Z.div_mod_to_equations. lia. Qed.

(** The month and the day of a day number are a month and a day. *)
Lemma civilFromDays_range z :
  let '(_, mo, d) := civilFromDays z in 1 <= mo <= 12 /\ 1 <= d <= 31.
Proof.
  unfold civilFromDays.
  pose proof (doe_range (z + 719468)) as Hdoe. cbv zeta in Hdoe.
  set (doe := z + 719468 - (z + 719468) / 146097 * 146097) in *.
  pose proof (yoe_range doe Hdoe) as Hyoe. cbv zeta in Hyoe.
  set (yoe := (doe - doe / 1460 + doe / 36524 - doe / 146096) / 365) in *.
  destruct Hyoe as [Hy Hdoy].
  pose proof (mp_range _ Hdoy) as Hmp. cbv zeta in Hmp.
  set (doy := doe - (365 * yoe + yoe / 4 - yoe / 100)) in *.
  set (mp := (5 * doy + 2) / 153) in *.
  destruct Hmp as [Hmp Hd].
  cbv zeta. split; [|exact Hd].
  destruct (mp <? 10) eqn:E; [apply Z.ltb_lt in E | apply Z.ltb_ge in E]; lia.
Qed.

(** The day number of the civil date of a day number is that number. *)
Lemma daysFromCivil_civilFromDays z :
  let '(y, mo, d) := civilFromDays z in daysFromCivil y mo d = z.
Proof.
  unfold civilFromDays.
  pose proof (doe_range (z + 719468)) as Hdoe. cbv zeta in Hdoe.
  set (era := (z + 719468) / 146097) in *.
  set (doe := z + 719468 - era * 146097) in *.
  pose proof (yoe_range doe Hdoe) as Hyoe. cbv zeta in Hyoe.
  set (yoe := (doe - doe / 1460 + doe / 36524 - doe / 146096) / 365) in *.
  destruct Hyoe as [Hy Hdoy].
  pose proof (mp_range _ Hdoy) as Hmp. cbv zeta in Hmp.
  set (doy := doe - (365 * yoe + yoe / 4 - yoe / 100)) in *.
  set (mp := (5 * doy + 2) / 153) in *.
  destruct Hmp as [Hmp Hd].
  cbv zeta. unfold daysFromCivil.
  assert (Hera : forall t, 0 <= t - era * 400 <= 399 -> t / 400 = era)
    by (intros t Ht; Z.div_mod_to_equations; lia).
  destruct (mp <? 10) eqn:E; [apply Z.ltb_lt in E | apply Z.ltb_ge in E].
  - replace (mp + 3 <=? 2) with false by (symmetry; apply Z.leb_gt; lia).
    replace (2 <? mp + 3) with true by (symmetry; apply Z.ltb_lt; lia).
    rewrite (Hera (yoe + era * 400)) by lia.
    replace (yoe + era * 400 - era * 400) with yoe by lia.
    replace (mp + 3 - 3) with mp by lia.
    subst doy doe. lia.
  - replace (mp - 9 <=? 2) with true by (symmetry; apply Z.leb_le; lia).
    replace (2 <? mp - 9) with false by (symmetry; apply Z.ltb_ge; lia).
    replace (yoe + era * 400 + 1 - 1) with (yoe + era * 400) by lia.
    rewrite (Hera (yoe + era * 400)) by lia.
    replace (yoe + era * 400 - era * 400) with yoe by lia.
    replace (mp - 9 + 9) with mp by lia.
    subst doy doe. lia.
Qed.

(** From the year 100 on, the year of a day number is at least 100. *)
Lemma civilFromDays_year z :
  daysFromCivil 100 1 1 <= z ->
  let '(y, _, _) := civilFromDays z in 100 <= y.
Proof.
  intro Hz. change (daysFromCivil 100 1 1) with (-683003) in Hz.
  unfold civilFromDays.
  pose proof (doe_range (z + 719468)) as Hdoe. cbv zeta in Hdoe.
  set (era := (z + 719468) / 146097) in *.
  set (doe := z + 719468 - era * 146097) in *.
  assert (0 <= era) by (subst era; Z.div_mod_to_equations; lia).
  pose proof (yoe_range doe Hdoe) as Hyoe. cbv zeta in Hyoe.
  set (yoe := (doe - doe / 1460 + doe / 36524 - doe / 146096) / 365) in *.
  destruct Hyoe as [Hy Hdoy].
  cbv zeta.
  set (doy := doe - (365 * yoe + yoe / 4 - yoe / 100)) in *.
  set (mp := (5 * doy + 2) / 153) in *.
  assert (era = 0 \/ 1 <= era) as [E0 | E1] by lia.
  - assert (36465 <= doe) by lia.
    assert (99 <= yoe /\ (yoe = 99 -> 306 <= doy)).
    { subst doy yoe. Z.div_mod_to_equations. lia. }
    assert (306 <= doy -> 10 <= mp) by (intro; subst mp; Z.div_mod_to_equations; lia).
    pose proof (mp_range _ Hdoy) as Hmp. cbv zeta in Hmp. fold mp in Hmp.
    destruct (mp <? 10) eqn:E; [apply Z.ltb_lt in E | apply Z.ltb_ge in E].
    + replace (mp + 3 <=? 2) with false by (symmetry; apply Z.leb_gt; lia).
      cbv beta iota. lia.
    + replace (mp - 9 <=? 2) with true by (symmetry; apply Z.leb_le; lia).
      cbv beta iota. lia.
  - destruct ((if mp <? 10 then mp + 3 else mp - 9) <=? 2); cbv beta iota; lia.
Qed.

End Calendar.

(** ** The timezone converter *)

Lemma partsOf_year x :
  year100 <= x -> 100 <= year (partsOf x).
Proof.
  intro Hx. unfold partsOf.
  assert (Hd : daysFromCivil 100 1 1 <= x / msPerDay).
  { change (daysFromCivil 100 1 1) with (-683003).
    change year100 with (-59011459200000) in Hx. unfold msPerDay.
    Z.div_mod_to_equations. lia. }
  pose proof (civilFromDays_year _ Hd) as Hy.
  destruct (civilFromDays (x / msPerDay)) as [[y mo] d]. exact Hy.
Qed.

Lemma daysFromCivil_day y mo d :
  daysFromCivil y mo 1 + d - 1 = daysFromCivil y mo d.
Proof. unfold daysFromCivil. cbv zeta. lia. Qed.

(** Reading wall-clock fields back with [Date.UTC] gives the milliseconds
    they were taken from, to the second. *)
Lemma DateUTC_partsOf x :
  year100 <= x ->
  let p := partsOf x in
  DateUTC (year p) (month p - 1) (day p) (hour p) (minute p) (second p)
  = 1000 * (x / 1000).
Proof.
  intro Hx. pose proof (partsOf_year x Hx) as Hy. revert Hy.
  unfold partsOf.
  pose proof (civilFromDays_range (x / msPerDay)) as Hr.
  pose proof (daysFromCivil_civilFromDays (x / msPerDay)) as Hd.
  destruct (civilFromDays (x / msPerDay)) as [[y mo] d].
  cbn [year month day hour minute second]. intro Hy.
  unfold DateUTC.
  replace ((0 <=? y) && (y <=? 99)) with false
    by (symmetry; apply andb_false_iff; right; apply Z.leb_gt; lia).
  replace ((mo - 1) / 12) with 0 by (Z.div_mod_to_equations; lia).
  replace ((mo - 1) mod 12 + 1) with mo by (Z.div_mod_to_equations; lia).
  replace (y + 0) with y by lia.
  rewrite daysFromCivil_day, Hd. unfold msPerDay.
  Z.div_mod_to_equations. lia.
Qed.

Lemma partsOf_seconds x : partsOf (1000 * (x / 1000)) = partsOf x.
Proof.
  unfold partsOf, msPerDay.
  replace (1000 * (x / 1000) / 86400000) with (x / 86400000)
    by (Z.div_mod_to_equations; lia).
  destruct (civilFromDays (x / 86400000)) as [[y mo] d].
  f_equal; Z.div_mod_to_equations; lia.
Qed.

Lemma truncQ_inject n : truncQ (inject_Z n) = n.
Proof.
  unfold truncQ. destruct (Qle_bool 0 (inject_Z n)).
  - apply Qfloor_Z.
  - apply Qceiling_Z.
Qed.

Lemma truncQ_comp q1 q2 : (q1 == q2)%Q -> truncQ q1 = truncQ q2.
Proof.
  intro H. unfold truncQ. rewrite H. destruct (Qle_bool 0 q2).
  - now rewrite H.
  - now rewrite H.
Qed.

Lemma minutes_back (a u : Z) (q : Q) :
  (q == inject_Z u)%Q ->
  ((inject_Z a - q) / inject_Z 60000 * inject_Z 60000 == inject_Z (a - u))%Q.
Proof.
  intro H. rewrite H.
  rewrite Qmult_comm, Qmult_div_r by discriminate.
  unfold Qminus, Z.sub. now rewrite inject_Z_plus, inject_Z_opp.
Qed.

(** At a whole second [u] of a zone with whole-second offsets,
    [getOffsetMinutesAt] returns the offset of the zone at [u]. *)
Lemma getOffsetMinutesAt_offset P tz zone q u :
  timeZone P tz = Some zone ->
  (q == inject_Z u)%Q ->
  (1000 | u + zone u) ->
  year100 <= u + zone u ->
  exists off,
    getOffsetMinutesAt P (Some q) tz = Ok (Some off) /\
    (off * inject_Z 60000 == inject_Z (zone u))%Q.
Proof.
  intros Htz Hq Hdiv Hy. unfold getOffsetMinutesAt. rewrite Htz.
  cbn [option_map]. rewrite (truncQ_comp _ _ Hq), truncQ_inject.
  unfold formatToParts. rewrite (DateUTC_partsOf _ Hy).
  eexists. split; [reflexivity|].
  rewrite (minutes_back _ u q Hq).
  replace (1000 * ((u + zone u) / 1000) - u) with (zone u).
  - reflexivity.
  - destruct Hdiv as [c Hc]. rewrite Hc. rewrite Z.div_mul by lia. lia.
Qed.

Section TwoPass.

Variable P : Platform.
Variables (tz : string) (zone : Zone).
Hypothesis Htz : timeZone P tz = Some zone.

(** Around the local time the zone has one transition, at [T], from offset
    [a] to offset [b], both whole seconds and at most [W] in size. *)
Variables (base T a b W : Z).
Hypothesis Hzone :
  forall v, base - W <= v <= base + W -> zone v = if v <? T then a else b.
Hypothesis Ha : Z.abs a <= W.
Hypothesis Hb : Z.abs b <= W.
Hypothesis Hsa : (1000 | a).
Hypothesis Hsb : (1000 | b).
Hypothesis Hbase : (1000 | base).
Hypothesis Hyear : year100 + 2 * W <= base.

Lemma zone_cases v :
  base - W <= v <= base + W ->
  (v < T /\ zone v = a) \/ (T <= v /\ zone v = b).
Proof.
  intro Hv. rewrite (Hzone v Hv).
  destruct (v <? T) eqn:E; [apply Z.ltb_lt in E | apply Z.ltb_ge in E]; auto.
Qed.

Lemma zone_whole v :
  base - W <= v <= base + W -> (1000 | v) -> (1000 | v + zone v).
Proof.
  intros Hv Hd. destruct (zone_cases v Hv) as [[_ ->] | [_ ->]];
    now apply Z.divide_add_r.
Qed.

Lemma zone_bound v :
  base - W <= v <= base + W -> Z.abs (zone v) <= W.
Proof.
  intro Hv. destruct (zone_cases v Hv) as [[_ ->] | [_ ->]]; assumption.
Qed.

(** The two passes, on a local time that is the reading of the clock of
    the zone at some whole second [u]. *)
Lemma two_pass_instant (localIso : string) (u : Z) :
  baseOf localIso = ofZ base ->
  base - W <= u <= base + W ->
  (1000 | u) ->
  u + zone u = base ->
  exists q r,
    zonedLocalToEpochMs P localIso tz = Ok (Some q) /\
    (q == inject_Z r)%Q /\ r + zone r = base.
Proof.
  intros Hb0 Hu Hdu Hub.
  unfold zonedLocalToEpochMs. rewrite Hb0. unfold ofZ at 1.
  assert (Hw0 : 0 <= W) by lia.
  assert (Hin0 : base - W <= base <= base + W) by lia.
  pose proof (zone_bound base Hin0) as Hz0.
  destruct (getOffsetMinutesAt_offset P tz zone (inject_Z base) base Htz
              (Qeq_refl _) (zone_whole base Hin0 Hbase) ltac:(lia))
    as (off1 & E1 & Hoff1).
  rewrite E1. cbn [bind nsub nmul ofZ].
  set (g := base - zone base).
  assert (Hg : (inject_Z base - off1 * inject_Z 60000 == inject_Z g)%Q).
  { rewrite Hoff1. unfold g, Qminus, Z.sub.
    now rewrite inject_Z_plus, inject_Z_opp. }
  assert (Hing : base - W <= g <= base + W) by (unfold g; lia).
  assert (Hdg : (1000 | g)).
  { unfold g. apply Z.divide_sub_r; [assumption|].
    destruct (zone_cases base Hin0) as [[_ ->] | [_ ->]]; assumption. }
  pose proof (zone_bound g Hing) as Hzg.
  destruct (getOffsetMinutesAt_offset P tz zone _ g Htz Hg
              (zone_whole g Hing Hdg) ltac:(lia))
    as (off2 & E2 & Hoff2).
  rewrite E2. cbn [bind nsub nmul ofZ].
  exists (inject_Z base - off2 * inject_Z 60000)%Q, (base - zone g).
  split; [reflexivity|]. split.
  - rewrite Hoff2. unfold Qminus, Z.sub.
    now rewrite inject_Z_plus, inject_Z_opp.
  - assert (Hinr : base - W <= base - zone g <= base + W) by lia.
    destruct (zone_cases base Hin0) as [[L0 Z0] | [L0 Z0]];
    destruct (zone_cases g Hing) as [[Lg Zg] | [Lg Zg]];
    destruct (zone_cases u Hu) as [[Lu Zu] | [Lu Zu]];
    destruct (zone_cases _ Hinr) as [[Lr Zr] | [Lr Zr]];
    unfold g in *; lia.
Qed.

End TwoPass.

Lemma formatToParts_whole zone u f a b T W base :
  (forall v, base - W <= v <= base + W -> zone v = if v <? T then a else b) ->
  Z.abs a <= W -> Z.abs b <= W -> (1000 | a) -> (1000 | b) ->
  year100 + 2 * W <= base ->
  base - W <= u <= base + W -> (1000 | u) ->
  formatToParts zone u = f ->
  base = DateUTC (year f) (month f - 1) (day f) (hour f) (minute f) (second f) ->
  u + zone u = base.
Proof.
  intros Hzone Ha Hb Hsa Hsb Hy Hu Hdu Hf Hbase.
  assert (Hzu : Z.abs (zone u) <= W /\ (1000 | u + zone u)).
  { rewrite (Hzone u Hu). destruct (u <? T); split; auto using Z.divide_add_r. }
  destruct Hzu as [Hzu Hdiv].
  unfold formatToParts in Hf. subst f.
  rewrite DateUTC_partsOf in Hbase by lia.
  destruct Hdiv as [c Hc]. rewrite Hc in Hbase.
  rewrite Z.div_mul in Hbase by lia. lia.
Qed.

(** C2, amended: the two-pass conversion reproduces the wall-clock fields
    of every local time that exists in the zone, that is, of every reading
    of the zone's clock at a whole second [u], provided the zone has at
    most one transition (at [T], from offset [a] to offset [b], whole
    seconds within [W]) in the window of [W] around the local time. *)
Theorem zonedLocalToEpochMs_reproduces_existing_time
  (P : Platform) (tz localIso : string) (zone : Zone) (f : Parts)
  (T a b W u : Z) :
  timeZone P tz = Some zone ->
  localFields localIso = Some f ->
  let base :=
    DateUTC (year f) (month f - 1) (day f) (hour f) (minute f) (second f) in
  (forall v, base - W <= v <= base + W -> zone v = if v <? T then a else b) ->
  Z.abs a <= W -> Z.abs b <= W -> (1000 | a) -> (1000 | b) ->
  year100 + 2 * W <= base ->
  base - W <= u <= base + W -> (1000 | u) ->
  formatToParts zone u = f ->
  exists q,
    zonedLocalToEpochMs P localIso tz = Ok (Some q) /\
    formatToParts zone (truncQ q) = f.
Proof.
  intros Htz Hf base Hzone Ha Hb Hsa Hsb Hy Hu Hdu Hfu.
  assert (Hub : u + zone u = base)
    by (eapply formatToParts_whole; eauto).
  assert (Hdb : (1000 | base)).
  { rewrite <- Hub. rewrite (Hzone u Hu).
    destruct (u <? T); auto using Z.divide_add_r. }
  assert (Hb0 : baseOf localIso = ofZ base)
    by (unfold baseOf; now rewrite Hf).
  destruct (two_pass_instant P tz zone Htz base T a b W Hzone Ha Hb Hsa Hsb
              Hdb Hy localIso u Hb0 Hu Hdu Hub) as (q & r & Eq & Hq & Hr).
  exists q. split; [exact Eq|].
  rewrite (truncQ_comp _ _ Hq), truncQ_inject.
  unfold formatToParts in *. now rewrite Hr, <- Hub.
Qed.

(** A time after the spring-forward transition of New York: 03:30 on
    2025-03-09 is the reading of the clock at 07:30 UTC. *)
Lemma zonedLocalToEpochMs_reproduces_existing_time_witness :
  exists q,
    zonedLocalToEpochMs Samples.platform "2025-03-09T03:30:00" "America/New_York"
    = Ok (Some q) /\
    formatToParts Samples.newYork (truncQ q)
    = {| year := 2025; month := 3; day := 9;
         hour := 3; minute := 30; second := 0 |}.
Proof.
  apply (zonedLocalToEpochMs_reproduces_existing_time
           Samples.platform "America/New_York" "2025-03-09T03:30:00"
           Samples.newYork _
           (DateUTC 2025 2 9 7 0 0) (-18000000) (-14400000) 86400000
           (DateUTC 2025 2 9 7 30 0)).
  - reflexivity.
  - reflexivity.
  - intros v Hv. unfold Samples.newYork.
    change (DateUTC 2025 2 9 7 0 0) with 1741503600000.
    change (DateUTC 2025 10 2 6 0 0) with 1762063200000.
    cbn in Hv.
    destruct (v <? 1741503600000); [reflexivity|].
    destruct (v <? 1762063200000) eqn:E; [reflexivity|].
    apply Z.ltb_ge in E. lia.
  - vm_compute. discriminate.
  - vm_compute. discriminate.
  - exists (-18000). reflexivity.
  - exists (-14400). reflexivity.
  - vm_compute. discriminate.
  - vm_compute. split; discriminate.
  - exists 1741505400. reflexivity.
  - reflexivity.
Defined.

(** C2 as stated fails in the hour a zone skips: 02:30 on 2025-03-09 is
    given to New York, and the instant returned reads 01:30 there. *)
Lemma zonedLocalToEpochMs_gap_counterexample :
  localFields "2025-03-09T02:30:00"
  = Some {| year := 2025; month := 3; day := 9;
            hour := 2; minute := 30; second := 0 |} /\
  exists q,
    zonedLocalToEpochMs Samples.platform "2025-03-09T02:30:00" "America/New_York"
    = Ok (Some q) /\
    formatToParts Samples.newYork (truncQ q)
    = {| year := 2025; month := 3; day := 9;
         hour := 1; minute := 30; second := 0 |} /\
    formatToParts Samples.newYork (truncQ q)
    <> {| year := 2025; month := 3; day := 9;
          hour := 2; minute := 30; second := 0 |}.
Proof.
  split; [reflexivity|].
  eexists. split; [vm_compute; reflexivity|].
  split; [vm_compute; reflexivity | vm_compute; discriminate].
Qed.

(** No instant reads 02:30 on 2025-03-09 in New York: whatever a converter
    returns for that local time, formatting it back gives another time. *)
Lemma newYork_skipped_hour u :
  formatToParts Samples.newYork u
  <> {| year := 2025; month := 3; day := 9;
        hour := 2; minute := 30; second := 0 |}.
Proof.
  unfold formatToParts. intro H.
  set (x := u + Samples.newYork u) in *.
  assert (Hx : 1741487400000 <= x <= 1741487400999).
  { unfold partsOf in H.
    pose proof (daysFromCivil_civilFromDays (x / msPerDay)) as Hd.
    destruct (civilFromDays (x / msPerDay)) as [[y mo] d].
    injection H as Hy Hmo Hdd Hh Hmi Hs. subst y mo d.
    change (daysFromCivil 2025 3 9) with 20156 in Hd.
    unfold msPerDay in *. Z.div_mod_to_equations. lia. }
  subst x. unfold Samples.newYork in Hx.
  change (DateUTC 2025 2 9 7 0 0) with 1741503600000 in Hx.
  change (DateUTC 2025 10 2 6 0 0) with 1762063200000 in Hx.
  destruct (u <? 1741503600000) eqn:E1;
    [apply Z.ltb_lt in E1; lia | apply Z.ltb_ge in E1].
  destruct (u <? 1762063200000) eqn:E2;
    [apply Z.ltb_lt in E2 | apply Z.ltb_ge in E2]; lia.
Qed.

(** ** Lists and strings *)

Lemma arrayIncludes_In xs x : arrayIncludes xs x = true <-> In x xs.
Proof.
  unfold arrayIncludes. rewrite existsb_exists. split.
  - intros (y & Hy & E). apply String.eqb_eq in E. now subst.
  - intro H. exists x. split; [assumption | apply String.eqb_refl].
Qed.

Lemma isEmpty_true s : isEmpty s = true <-> s = "".
Proof. destruct s; simpl; split; congruence. Qed.

Lemma arrayFind_first {A} (f : A -> bool) l x :
  arrayFind f l = Some x <-> firstSuch f l x.
Proof.
  unfold arrayFind, firstSuch. induction l as [|y l IH]; simpl.
  - split; [discriminate|]. intros (pre & post & E & _). now destruct pre.
  - destruct (f y) eqn:Fy.
    + split.
      * intro E. injection E as ->. exists [], l. simpl. repeat split; auto.
        intros ? [].
      * intros (pre & post & E & Fx & Hpre). destruct pre as [|p pre].
        -- simpl in E. injection E as -> _. reflexivity.
        -- simpl in E. injection E as -> _.
           rewrite (Hpre p (or_introl eq_refl)) in Fy. discriminate.
    + rewrite IH. split.
      * intros (pre & post & -> & Fx & Hpre). exists (y :: pre), post.
        repeat split; auto. intros z [<- | Hz]; auto.
      * intros (pre & post & E & Fx & Hpre). destruct pre as [|p pre].
        -- simpl in E. injection E as -> _. congruence.
        -- simpl in E. injection E as -> ->. exists pre, post.
           repeat split; auto. intros z Hz. apply Hpre. now right.
Qed.

Lemma arrayFind_none {A} (f : A -> bool) l :
  arrayFind f l = None <-> forall y, In y l -> f y = false.
Proof.
  unfold arrayFind. split.
  - intros H y Hy. exact (find_none f l H y Hy).
  - induction l as [|y l IH]; simpl; intro H; [reflexivity|].
    rewrite (H y (or_introl eq_refl)). apply IH. intros z Hz. apply H. now right.
Qed.

(** ** The vocabulary *)

Lemma toLowerCase_nonempty s : s <> "" -> toLowerCase s <> "".
Proof. destruct s; [congruence | discriminate]. Qed.

Lemma addCity_nonempty cities field :
  Forall (fun c => c <> "") cities ->
  Forall (fun c => c <> "") (addCity cities field).
Proof.
  intro H. unfold addCity. destruct field as [c|]; [|assumption].
  destruct (isEmpty c) eqn:E; [assumption|].
  destruct (arrayIncludes cities (toLowerCase c)); [assumption|].
  unfold push. apply Forall_app. split; [assumption|].
  constructor; [|constructor]. apply toLowerCase_nonempty.
  intros ->. discriminate.
Qed.

(** The city vocabulary the loader builds holds no empty string. *)
Lemma getCitiesFromCsv_nonempty columns :
  Forall (fun c => c <> "") (getCitiesFromCsv columns).
Proof.
  unfold getCitiesFromCsv. destruct columns as [lines|]; [|constructor].
  assert (H : Forall (fun c : string => c <> "") []) by constructor.
  revert H. generalize (@nil string).
  induction lines as [|[dep arr] lines IH]; intros acc H; simpl; [assumption|].
  apply IH. now apply addCity_nonempty, addCity_nonempty.
Qed.

(** ** The query parser *)

Lemma collect_In text cands : forall acc c,
  In c (collect text acc cands) <->
  In c acc \/ (In c cands /\ includes text c = true).
Proof.
  unfold collect. induction cands as [|d cands IH]; intros acc c; simpl.
  - tauto.
  - rewrite IH. destruct (includes text d) eqn:Inc; simpl.
    + destruct (arrayIncludes acc d) eqn:Has; simpl.
      * apply arrayIncludes_In in Has. split.
        -- intros [H | [H1 H2]]; auto.
        -- intros [H | [[<- | H1] H2]]; auto.
      * unfold push. rewrite in_app_iff. simpl. split.
        -- intros [[H | [<- | []]] | [H1 H2]]; auto.
        -- intros [H | [[<- | H1] H2]]; auto.
    + split.
      * intros [H | [H1 H2]]; auto.
      * intros [H | [[<- | H1] H2]]; auto. congruence.
Qed.

Lemma collect_NoDup text cands : forall acc,
  NoDup acc -> NoDup (collect text acc cands).
Proof.
  unfold collect. induction cands as [|d cands IH]; intros acc Hacc; simpl.
  - assumption.
  - apply IH. destruct (includes text d); simpl; [|assumption].
    destruct (arrayIncludes acc d) eqn:Has; simpl; [assumption|].
    unfold push. apply NoDup_app; [assumption | repeat constructor; intros [] |].
    intros x Hx [<- | []].
    apply arrayIncludes_In in Hx. congruence.
Qed.

(** The statements after the [return] do what the entity rule asks: a
    known term is collected exactly when the text contains it, and no
    entity is collected twice. *)
Lemma parseMessage_rest_entities this text c :
  In c (industryTerms this ++ cities this)%list -> c <> "" ->
  (In c (entities (parseMessage_rest this text)) <-> includes text c = true).
Proof.
  intros Hc Hne. unfold parseMessage_rest. cbn [entities].
  rewrite !collect_In. split.
  - intros [[[] | [_ H]] | [_ H]]; exact H.
  - intro H. left. right. split; [|exact H].
    apply filter_In. split; [exact Hc|].
    destruct c; [congruence | reflexivity].
Qed.

Lemma parseMessage_rest_NoDup this text :
  NoDup (entities (parseMessage_rest this text)).
Proof.
  unfold parseMessage_rest. cbn [entities].
  apply collect_NoDup, collect_NoDup. constructor.
Qed.

(** [parseMessage] returns its initial result whatever the message and the
    vocabulary. *)
Lemma parseMessage_constant this message :
  parseMessage this message = {| verb := None; entities := []; normalized := "" |}.
Proof.
  unfold parseMessage. destruct (isEmpty (normalizeMessage message)) eqn:E.
  - apply isEmpty_true in E. rewrite E. reflexivity.
  - reflexivity.
Qed.

(** C1, on the code: the term [rider] is in the vocabulary and occurs in
    the normalized message, and [parseMessage] returns no entity (the
    statements it never reaches would have returned it). *)
Theorem parseMessage_drops_known_term :
  let this := {| industryTerms := ["rider"]; cities := ["sydney"] |} in
  let message := "What is a rider?" in
  In "rider" (industryTerms this) /\
  includes (normalizeMessage message) "rider" = true /\
  entities (parseMessage this message) = [] /\
  entities (parseMessage_rest this (normalizeMessage message)) = ["rider"].
Proof. repeat split; try reflexivity. simpl. auto. Qed.

(** ** The field resolver *)

Lemma firstMax_bound l h x : firstMax l h -> In x l -> score x <= score h.
Proof.
  intros (pre & post & -> & Hpre & Hpost) Hx.
  apply in_app_iff in Hx. destruct Hx as [Hx | [<- | Hx]].
  - specialize (Hpre x Hx). lia.
  - lia.
  - exact (Hpost x Hx).
Qed.

Lemma firstMax_In l h : firstMax l h -> In h l.
Proof.
  intros (pre & post & -> & _). apply in_app_iff. right. now left.
Qed.

(** After the sort by descending score the first element is the first of
    the highest-scored elements of the input. *)
Lemma sortBy_byScoreDesc_head l :
  l <> [] ->
  exists h, hd_error (sortBy byScoreDesc l) = Some h /\ firstMax l h.
Proof.
  induction l as [|x l IH]; [congruence|]. intros _.
  destruct l as [|y l].
  - exists x. split; [reflexivity|]. exists [], []. simpl.
    repeat split; intros ? [].
  - destruct IH as (h & Hh & Hmax); [discriminate|].
    change (sortBy byScoreDesc (x :: y :: l))
      with (insertBy byScoreDesc x (sortBy byScoreDesc (y :: l))).
    destruct (sortBy byScoreDesc (y :: l)) as [|h' rest]; [discriminate|].
    simpl in Hh. injection Hh as ->.
    simpl. unfold byScoreDesc at 1.
    destruct (score h - score x ?= 0) eqn:C.
    + apply Z.compare_eq in C. exists x. split; [reflexivity|].
      exists [], (y :: l). repeat split; [intros ? [] |].
      intros z Hz. pose proof (firstMax_bound _ _ _ Hmax Hz). lia.
    + rewrite Z.compare_lt_iff in C. exists x. split; [reflexivity|].
      exists [], (y :: l). repeat split; [intros ? [] |].
      intros z Hz. pose proof (firstMax_bound _ _ _ Hmax Hz). lia.
    + rewrite Z.compare_gt_iff in C. exists h. split; [reflexivity|].
      destruct Hmax as (pre & post & E & Hpre & Hpost).
      exists (x :: pre), post. rewrite E. repeat split; auto.
      intros z [<- | Hz]; [lia | auto].
Qed.

(** C3, amended: when at least one key is a candidate, the key returned has
    the highest score, and among the candidates of that score it is the one
    scanned first. *)
Theorem findFieldForTerm_highest_first_scanned
  (show : ShowRecord) (term : string) (verb : option string) :
  term <> "" ->
  scoredOf show (norm term) verb <> [] ->
  exists h,
    findFieldForTerm (Some show) (Some term) verb = Some h /\
    firstMax (scoredOf show (norm term) verb) h.
Proof.
  intros Hterm Hscored. unfold findFieldForTerm.
  destruct term as [|c term]; [congruence|]. cbn [isEmpty].
  destruct (sortBy_byScoreDesc_head _ Hscored) as (h & Hh & Hmax).
  exists h. split; [|exact Hmax].
  destruct (scoredOf show (norm (String c term)) verb); [congruence | exact Hh].
Qed.

Lemma findFieldForTerm_highest_first_scanned_witness :
  exists h,
    findFieldForTerm
      (Some [ ("show_time", VStr "20:00"); ("doors_time", VStr "19:00") ])
      (Some "time") (Some "what time is") = Some h /\
    firstMax
      (scoredOf [ ("show_time", VStr "20:00"); ("doors_time", VStr "19:00") ]
                (norm "time") (Some "what time is")) h.
Proof.
  apply (findFieldForTerm_highest_first_scanned
           [ ("show_time", VStr "20:00"); ("doors_time", VStr "19:00") ]
           "time" (Some "what time is")).
  - discriminate.
  - vm_compute. discriminate.
Defined.

(** C3 as stated fails: two keys tie at the highest score, and the key
    returned is the one scanned first, not the one scanned last. *)
Lemma findFieldForTerm_tie_counterexample :
  let show := [ ("show_time", VStr "20:00"); ("doors_time", VStr "19:00") ] in
  let scored := scoredOf show (norm "time") (Some "what time is") in
  map score scored = [12; 12] /\
  exists h,
    findFieldForTerm (Some show) (Some "time") (Some "what time is") = Some h /\
    k h = "show_time" /\
    ~ lastMax scored h.
Proof.
  cbv zeta. split; [reflexivity|].
  eexists. split; [vm_compute; reflexivity|]. split; [reflexivity|].
  intros (pre & post & E & Hpre & Hpost).
  vm_compute in E.
  destruct pre as [|p pre].
  - simpl in E. injection E as <-.
    specialize (Hpost _ (or_introl eq_refl)). vm_compute in Hpost. discriminate.
  - simpl in E. injection E as <- E. destruct pre as [|p' pre].
    + simpl in E. injection E as E _. discriminate.
    + simpl in E. injection E as _ E. now destruct pre.
Qed.

Lemma scoredOf_In show nTerm verb h :
  In h (scoredOf show nTerm verb) <->
  In (k h) (keysOf show) /\
  val h = getProp show (k h) /\
  score h = scoreKey nTerm verb (k h) /\
  notNullish (val h) = true /\ nonBlank (val h) = true /\ 0 < score h.
Proof.
  unfold scoredOf. rewrite in_flat_map. split.
  - intros (key & Hkey & Hin).
    destruct (notNullish (getProp show key)) eqn:A; [|destruct Hin].
    destruct (nonBlank (getProp show key)) eqn:B; [|destruct Hin].
    destruct (0 <? scoreKey nTerm verb key) eqn:C; [|destruct Hin].
    destruct Hin as [<- | []]. cbn [k val score].
    apply Z.ltb_lt in C. repeat split; assumption.
  - intros (Hkey & Hval & Hscore & A & B & C). exists (k h). split; [exact Hkey|].
    rewrite Hval in A, B. rewrite A, B. rewrite Hscore in C.
    apply Z.ltb_lt in C. rewrite C. left.
    destruct h as [k0 s0 v0]. cbn in *. now subst.
Qed.

Lemma nonBlank_orElse v :
  nonBlank (orElse v (VStr "")) = true ->
  notNullish v = true /\ nonBlank v = true.
Proof.
  unfold orElse. destruct (truthy v) eqn:T.
  - intro H. split; [|exact H]. now destruct v.
  - intro H. discriminate.
Qed.

Lemma fallbackHit_spec show h :
  fallbackHit show = Some h <->
  firstSuch (presentPref show) prefs (k h) /\
  score h = 1 /\ val h = getProp show (k h).
Proof.
  unfold fallbackHit.
  change (fun p => hasOwnProperty show p &&
                   nonBlank (orElse (getProp show p) (VStr "")))
    with (presentPref show).
  destruct (arrayFind (presentPref show) prefs) as [p|] eqn:F.
  - split.
    + intro E. injection E as <-. cbn [k score val].
      apply arrayFind_first in F. auto.
    + intros (Hf & Hs & Hv). apply arrayFind_first in Hf.
      rewrite F in Hf. injection Hf as ->.
      destruct h as [k0 s0 v0]. cbn in *. now subst.
  - split; [discriminate|]. intros (Hf & _).
    apply arrayFind_first in Hf. rewrite F in Hf. discriminate.
Qed.

(** C8: a key is returned only with a value that is neither null nor blank.
    What is returned is either a scored candidate (value not null, not
    blank, score positive) or, when nothing is scored and the verb asks for
    a time, the first preferred time field that is present and not blank,
    with score 1; when nothing is scored otherwise, nothing is returned. *)
Theorem findFieldForTerm_never_blank
  (show : ShowRecord) (term : string) (verb : option string) :
  term <> "" ->
  let scored := scoredOf show (norm term) verb in
  let result := findFieldForTerm (Some show) (Some term) verb in
  (forall h, In h scored <->
     In (k h) (keysOf show) /\ val h = getProp show (k h) /\
     score h = scoreKey (norm term) verb (k h) /\
     notNullish (val h) = true /\ nonBlank (val h) = true /\ 0 < score h) /\
  (forall h, result = Some h ->
     notNullish (val h) = true /\ nonBlank (val h) = true /\
     val h = getProp show (k h) /\ In (k h) (keysOf show)) /\
  (scored <> [] -> exists h, result = Some h /\ In h scored) /\
  (scored = [] -> timeLike verb = true ->
     forall h, result = Some h <->
       firstSuch (presentPref show) prefs (k h) /\
       score h = 1 /\ val h = getProp show (k h)) /\
  (scored = [] -> timeLike verb = true ->
     (forall p, In p prefs -> presentPref show p = false) -> result = None) /\
  (scored = [] -> timeLike verb = false -> result = None).
Proof.
  intros Hterm scored result.
  assert (Hres : result =
            match scored with
            | [] => if timeLike verb then fallbackHit show else None
            | _ :: _ => hd_error (sortBy byScoreDesc scored)
            end).
  { unfold result, findFieldForTerm. destruct term; [congruence | reflexivity]. }
  split; [intro h; apply scoredOf_In|].
  split; [|split; [|split; [|split]]].
  - intros h Hh. rewrite Hres in Hh. destruct scored as [|s0 scored'] eqn:Es.
    + destruct (timeLike verb); [|discriminate].
      apply fallbackHit_spec in Hh. destruct Hh as ((pre & post & E & Hp & _) & _ & Hv).
      unfold presentPref in Hp. apply andb_prop in Hp. destruct Hp as [Ho Hn].
      apply nonBlank_orElse in Hn. rewrite Hv.
      repeat split; try tauto. now apply arrayIncludes_In.
    + destruct (sortBy_byScoreDesc_head (s0 :: scored') ltac:(discriminate))
        as (h' & Hh' & Hmax).
      rewrite Hh' in Hh. injection Hh as ->.
      apply firstMax_In in Hmax. rewrite <- Es in Hmax.
      apply scoredOf_In in Hmax. tauto.
  - intro Hne. rewrite Hres. destruct scored as [|s0 scored']; [congruence|].
    destruct (sortBy_byScoreDesc_head (s0 :: scored') ltac:(discriminate))
      as (h' & Hh' & Hmax).
    exists h'. split; [exact Hh' | now apply firstMax_In].
  - intros E T h. rewrite Hres, E, T. apply fallbackHit_spec.
  - intros E T Hnone. rewrite Hres, E, T. unfold fallbackHit.
    change (fun p => hasOwnProperty show p &&
                     nonBlank (orElse (getProp show p) (VStr "")))
      with (presentPref show).
    now rewrite (proj2 (arrayFind_none (presentPref show) prefs) Hnone).
  - intros E T. now rewrite Hres, E, T.
Qed.

Lemma findFieldForTerm_never_blank_witness :
  findFieldForTerm
    (Some [ ("city", VStr "sydney"); ("soundcheck_time", VStr "16:00");
            ("doors_time", VStr "  ") ])
    (Some "soundcheck") (Some "what time is")
  = Some {| k := "soundcheck_time"; score := 12; val := VStr "16:00" |} /\
  notNullish (VStr "16:00") = true /\ nonBlank (VStr "16:00") = true.
Proof.
  assert (E : findFieldForTerm
                (Some [ ("city", VStr "sydney"); ("soundcheck_time", VStr "16:00");
                        ("doors_time", VStr "  ") ])
                (Some "soundcheck") (Some "what time is")
              = Some {| k := "soundcheck_time"; score := 12; val := VStr "16:00" |})
    by (vm_compute; reflexivity).
  split; [exact E|].
  destruct (proj1 (proj2 (findFieldForTerm_never_blank
                            [ ("city", VStr "sydney");
                              ("soundcheck_time", VStr "16:00");
                              ("doors_time", VStr "  ") ]
                            "soundcheck" (Some "what time is")
                            ltac:(discriminate)))
                  _ E) as (Hn & Hb & _).
  split; [exact Hn | exact Hb].
Defined.

(** The preferred time fields are time keys, so one that is present and
    not blank is always among the scored candidates: the fallback never
    finds anything when it runs. *)
Lemma scoreKey_time nTerm verb key :
  isTimeKey key = true -> 3 <= scoreKey nTerm verb key.
Proof.
  intro H. unfold scoreKey. rewrite H.
  destruct (includes (norm key) nTerm), (locationLike verb && _),
    (timeLike verb && true); lia.
Qed.

Lemma fallbackHit_unreachable show nTerm verb :
  scoredOf show nTerm verb = [] -> fallbackHit show = None.
Proof.
  intro Hs. destruct (fallbackHit show) as [h|] eqn:E; [exfalso | reflexivity].
  apply fallbackHit_spec in E. destruct E as ((pre & post & Ep & Hp & _) & _ & Hv).
  unfold presentPref in Hp. apply andb_prop in Hp. destruct Hp as [Ho Hn].
  apply nonBlank_orElse in Hn. destruct Hn as [Hnn Hnb].
  assert (Hin : In (k h) prefs) by (rewrite Ep; apply in_app_iff; right; now left).
  assert (Ht : isTimeKey (k h) = true).
  { unfold prefs in Hin. simpl in Hin.
    destruct Hin as [<- | [<- | [<- | [<- | []]]]]; vm_compute; reflexivity. }
  assert (Hc : In {| k := k h; score := scoreKey nTerm verb (k h);
                     val := getProp show (k h) |} (scoredOf show nTerm verb)).
  { apply scoredOf_In. cbn [k score val]. repeat split; auto.
    - now apply arrayIncludes_In.
    - pose proof (scoreKey_time nTerm verb (k h) Ht). lia. }
  rewrite Hs in Hc. destruct Hc.
Qed.

(** ** Sorting *)

Lemma insertBy_perm {A} (sgn : A -> A -> comparison) x l :
  Permutation (insertBy sgn x l) (x :: l).
Proof.
  induction l as [|y l IH]; simpl; [reflexivity|].
  destruct (sgn x y); try reflexivity.
  rewrite IH. apply perm_swap.
Qed.

Lemma sortBy_perm {A} (sgn : A -> A -> comparison) l :
  Permutation (sortBy sgn l) l.
Proof.
  induction l as [|x l IH]; simpl; [reflexivity|].
  rewrite insertBy_perm. now constructor.
Qed.

Lemma departsNoLater_trans a b c :
  departsNoLater a b -> departsNoLater b c -> departsNoLater a c.
Proof.
  unfold departsNoLater.
  destruct (depEpoch a), (depEpoch b), (depEpoch c); try tauto.
  apply Qle_trans.
Qed.

Lemma byDeparture_Gt a b :
  byDeparture a b = Gt -> departsNoLater b a.
Proof.
  unfold byDeparture, departsNoLater.
  destruct (depEpoch a), (depEpoch b); try discriminate.
  intro H. apply Qgt_alt in H. now apply Qlt_le_weak.
Qed.

Lemma byDeparture_not_Gt a b :
  timed a -> timed b -> byDeparture a b <> Gt -> departsNoLater a b.
Proof.
  unfold timed, byDeparture, departsNoLater.
  destruct (depEpoch a), (depEpoch b); try congruence.
  intros _ _ H. apply Qnot_lt_le. intro L. apply H. now apply Qgt_alt.
Qed.

Lemma insertBy_sorted x l :
  timed x -> Forall timed l ->
  StronglySorted departsNoLater l ->
  StronglySorted departsNoLater (insertBy byDeparture x l).
Proof.
  intros Hx Hl Hs. induction l as [|y l IH]; simpl.
  - repeat constructor.
  - inversion Hl as [|? ? Hy Hl']; subst.
    inversion Hs as [|? ? Hs' Hall]; subst.
    destruct (byDeparture x y) eqn:C.
    + assert (Hxy : departsNoLater x y)
        by (apply byDeparture_not_Gt; auto; congruence).
      constructor; [assumption|]. constructor; [assumption|].
      eapply Forall_impl; [|exact Hall].
      intros z Hz. eapply departsNoLater_trans; eauto.
    + assert (Hxy : departsNoLater x y)
        by (apply byDeparture_not_Gt; auto; congruence).
      constructor; [assumption|]. constructor; [assumption|].
      eapply Forall_impl; [|exact Hall].
      intros z Hz. eapply departsNoLater_trans; eauto.
    + constructor; [now apply IH|].
      apply (Permutation_Forall (Permutation_sym (insertBy_perm byDeparture x l))).
      constructor; [now apply byDeparture_Gt | assumption].
Qed.

Lemma sortBy_sorted l :
  Forall timed l -> StronglySorted departsNoLater (sortBy byDeparture l).
Proof.
  induction l as [|x l IH]; simpl; intro H; [constructor|].
  inversion H; subst. apply insertBy_sorted; auto.
  apply (Permutation_Forall (Permutation_sym (sortBy_perm byDeparture l))).
  assumption.
Qed.

Lemma In_firstn {A} n (l : list A) x : In x (firstn n l) -> In x l.
Proof.
  intro H. rewrite <- (firstn_skipn n l). apply in_or_app. now left.
Qed.

Lemma StronglySorted_firstn {A} (R : A -> A -> Prop) n l :
  StronglySorted R l -> StronglySorted R (firstn n l).
Proof.
  revert l. induction n as [|n IH]; intros l H; simpl; [constructor|].
  destruct l as [|x l]; [constructor|].
  inversion H; subst. constructor; [now apply IH|].
  rewrite Forall_forall in *. intros y Hy. eauto using In_firstn.
Qed.

(** ** The error monad *)

Lemma mapM_Ok {A B} (f : A -> exc B) l l' :
  mapM f l = Ok l' -> Forall2 (fun x y => f x = Ok y) l l'.
Proof.
  revert l'. induction l as [|x l IH]; simpl; intros l' H.
  - injection H as <-. constructor.
  - destruct (f x) as [y|] eqn:Fx; [|discriminate]. simpl in H.
    destruct (mapM f l) as [ys|]; [|discriminate]. simpl in H.
    injection H as <-. constructor; auto.
Qed.

Lemma mapM_total {A B} (f : A -> exc B) l :
  Forall (fun x => exists y, f x = Ok y) l -> exists l', mapM f l = Ok l'.
Proof.
  induction 1 as [|x l (y & Hy) _ (l' & Hl')]; simpl.
  - now eexists.
  - rewrite Hy, Hl'. now eexists.
Qed.

Lemma filterM_Ok {A} (f : A -> exc bool) l l' :
  filterM f l = Ok l' ->
  l' = filter (fun x => match f x with Ok b => b | Throw _ => false end) l.
Proof.
  revert l'. induction l as [|x l IH]; simpl; intros l' H.
  - now injection H as <-.
  - destruct (f x) as [b|]; [|discriminate]. simpl in H.
    destruct (filterM f l) as [ys|]; [|discriminate]. simpl in H.
    injection H as <-. rewrite (IH ys eq_refl). reflexivity.
Qed.

Lemma filterM_total {A} (f : A -> exc bool) l :
  Forall (fun x => exists b, f x = Ok b) l -> exists l', filterM f l = Ok l'.
Proof.
  induction 1 as [|x l (b & Hb) _ (l' & Hl')]; simpl.
  - now eexists.
  - rewrite Hb, Hl'. now eexists.
Qed.

Lemma StronglySorted_filter {A} (R : A -> A -> Prop) f l :
  StronglySorted R l -> StronglySorted R (filter f l).
Proof.
  induction 1 as [|x l Hs IH Hall]; simpl; [constructor|].
  destruct (f x); [|assumption]. constructor; [assumption|].
  rewrite Forall_forall in *. intros y Hy. apply filter_In in Hy. now apply Hall.
Qed.

(** ** The flight scheduler *)

Lemma directional_filter opts l :
  directional opts l = filter (dirMatch opts) l.
Proof.
  unfold directional, dirMatch.
  destruct (given (toCity opts)); [reflexivity|].
  destruct (given (fromCity opts)); [reflexivity|].
  destruct (given (city opts)); [reflexivity|].
  induction l as [|x l IH]; simpl; congruence.
Qed.

Lemma filter_twice {A} (f g : A -> bool) l :
  filter g (filter f l) = filter (fun x => f x && g x) l.
Proof.
  induction l as [|x l IH]; simpl; [reflexivity|].
  destruct (f x); simpl; [destruct (g x)|]; congruence.
Qed.

Lemma notPast_timed P r : notPast P r = true -> timed r.
Proof. unfold notPast, timed, nge. destruct (depEpoch r); congruence. Qed.

(** The list before [nextOnly] and the limit apply. *)
Lemma upcomingList_remaining P W limit opts lines l :
  flightsCsv W = Some lines ->
  upcomingList P W limit opts = Ok l ->
  exists attached remaining,
    mapM (attachEpoch P) (rowsOf opts lines) = Ok attached /\
    (if todayOnly opts
     then todayFilter P opts
            (sortBy byDeparture
               (filter (notPast P) (directional opts attached)))
     else Ok (sortBy byDeparture
                (filter (notPast P) (directional opts attached))))
    = Ok remaining /\
    l = match remaining with
        | [] => []
        | first :: _ =>
            let lst := if nextOnly opts then [first] else remaining in
            if negb (limit =? 0) && (limit <? Z.of_nat (List.length lst))
            then sliceTo limit lst else lst
        end.
Proof.
  intros Hcsv H. unfold upcomingList in H. rewrite Hcsv in H.
  destruct (mapM (attachEpoch P) (rowsOf opts lines)) as [attached|] eqn:Ea;
    [|discriminate].
  cbn [bind] in H. exists attached.
  change (fun r => nge (depEpoch r) (ofZ (dateNow P))) with (notPast P) in H.
  destruct (if todayOnly opts
            then todayFilter P opts
                   (sortBy byDeparture
                      (filter (notPast P) (directional opts attached)))
            else Ok (sortBy byDeparture
                       (filter (notPast P) (directional opts attached))))
    as [remaining|] eqn:Er; [|discriminate].
  cbn [bind] in H. exists remaining. split; [reflexivity|]. split; [reflexivity|].
  destruct remaining; injection H as <-; reflexivity.
Qed.

(** C6, amended: every record gets its computed departure instant; at most
    one directional filter applies, [toCity] before [fromCity] before
    [city], matching the city field whatever the case; past departures are
    dropped and the rest is sorted by ascending instant; with [nextOnly]
    only the first remaining record is kept; and a positive limit caps the
    result, while a limit of 0 applies no cap. *)
Theorem upcomingList_filters_sorts_caps
  (P : Platform) (W : World) (limit : Z) (opts : FlightOpts)
  (lines : list FlightRow) (l : list Flight) :
  flightsCsv W = Some lines ->
  upcomingList P W limit opts = Ok l ->
  exists attached remaining,
    Forall2 (fun r f =>
               row f = r /\
               zonedLocalToEpochMs P (strOr (departure_time r))
                                     (strOr (departure_timezone r))
               = Ok (depEpoch f))
            (rowsOf opts lines) attached /\
    (forall r, In r remaining ->
       In r attached /\ dirMatch opts r = true /\ notPast P r = true) /\
    (todayOnly opts = false ->
       Permutation remaining
         (filter (fun r => dirMatch opts r && notPast P r) attached)) /\
    StronglySorted departsNoLater remaining /\
    (nextOnly opts = true -> 0 <= limit -> l = firstn 1 remaining) /\
    (nextOnly opts = false -> 0 < limit ->
       l = firstn (Z.to_nat limit) remaining) /\
    (nextOnly opts = false -> limit = 0 -> l = remaining).
Proof.
  intros Hcsv H.
  destruct (upcomingList_remaining P W limit opts lines l Hcsv H)
    as (attached & remaining & Ea & Er & El).
  exists attached, remaining.
  set (sorted := sortBy byDeparture
                   (filter (notPast P) (directional opts attached))) in *.
  assert (Hperm : Permutation sorted
            (filter (fun r => dirMatch opts r && notPast P r) attached)).
  { unfold sorted. rewrite sortBy_perm, directional_filter, filter_twice.
    reflexivity. }
  assert (Hsorted : StronglySorted departsNoLater sorted).
  { unfold sorted. apply sortBy_sorted. apply Forall_forall.
    intros r Hr. apply filter_In in Hr. now apply (notPast_timed P). }
  assert (Hrem : exists g, remaining = filter g sorted).
  { destruct (todayOnly opts).
    - unfold todayFilter in Er. destruct (timeZone P _); [|discriminate].
      apply filterM_Ok in Er. eauto.
    - injection Er as <-. exists (fun _ => true).
      clear. induction sorted; simpl; congruence. }
  destruct Hrem as (g & Hg).
  split; [|split; [|split; [|split; [|split; [|split]]]]].
  - apply mapM_Ok in Ea. eapply Forall2_impl; [|exact Ea].
    intros r f Hf. unfold attachEpoch in Hf. cbv beta in Hf.
    destruct (zonedLocalToEpochMs P _ _) as [e|]; [|discriminate].
    injection Hf as <-. auto.
  - intros r Hr. rewrite Hg in Hr. apply filter_In in Hr. destruct Hr as [Hr _].
    apply (Permutation_in _ Hperm) in Hr. apply filter_In in Hr.
    destruct Hr as [Hin Hb]. apply andb_prop in Hb. tauto.
  - intro Ht. rewrite Ht in Er. injection Er as <-. exact Hperm.
  - rewrite Hg. now apply StronglySorted_filter.
  - intros Hn Hl. rewrite El. destruct remaining as [|first rest]; [reflexivity|].
    rewrite Hn. cbv zeta.
    destruct (negb (limit =? 0) && (limit <? Z.of_nat (List.length [first])))
      eqn:C; [exfalso|reflexivity].
    apply andb_prop in C. destruct C as [C0 C1].
    apply negb_true_iff, Z.eqb_neq in C0. apply Z.ltb_lt in C1.
    cbn in C1. lia.
  - intros Hn Hl. rewrite El. destruct remaining as [|first rest];
      [now rewrite firstn_nil|].
    rewrite Hn. cbv zeta.
    replace (limit =? 0) with false by (symmetry; apply Z.eqb_neq; lia).
    cbn [negb andb].
    destruct (limit <? Z.of_nat (List.length (first :: rest))) eqn:E.
    + unfold sliceTo. now replace (0 <=? limit) with true
        by (symmetry; apply Z.leb_le; lia).
    + apply Z.ltb_ge in E. symmetry. apply firstn_all2. lia.
  - intros Hn Hl. rewrite El. destruct remaining as [|first rest]; [reflexivity|].
    rewrite Hn, Hl. reflexivity.
Qed.


Lemma upcomingList_filters_sorts_caps_witness :
  exists l remaining,
    upcomingList Samples.platform Samples.world 2 baseOpts = Ok l /\
    StronglySorted departsNoLater remaining /\
    l = firstn 2 remaining.
Proof.
  assert (E : exists l,
             upcomingList Samples.platform Samples.world 2 baseOpts = Ok l)
    by (vm_compute; eexists; reflexivity).
  destruct E as [l E].
  destruct (upcomingList_filters_sorts_caps
              Samples.platform Samples.world 2 baseOpts _ l eq_refl E)
    as (attached & remaining & _ & _ & _ & Hs & _ & Hcap & _).
  exists l, remaining. split; [exact E|]. split; [exact Hs|].
  apply Hcap; [reflexivity | lia].
Defined.

(** C6 as stated fails for the limit 0: the three upcoming flights are all
    returned. *)
Lemma upcomingList_limit_zero_counterexample :
  exists l,
    upcomingList Samples.platform Samples.world 0 baseOpts = Ok l /\
    map (fun r => flight_number (row r)) l = [ Some "142"; Some "401"; Some "402" ] /\
    ~ (Z.of_nat (List.length l) <= 0).
Proof.
  eexists. split; [vm_compute; reflexivity|].
  split; [reflexivity | cbn; lia].
Qed.

Lemma getOffsetMinutesAt_returns P q tz z :
  timeZone P tz = Some z ->
  exists off, getOffsetMinutesAt P (Some q) tz = Ok (Some off).
Proof.
  intro H. unfold getOffsetMinutesAt. rewrite H. cbn. now eexists.
Qed.

(** The converter returns an instant for a known zone and a local time
    with six numeric fields. *)
Lemma zonedLocalToEpochMs_returns P localIso tz z f :
  timeZone P tz = Some z -> localFields localIso = Some f ->
  exists q, zonedLocalToEpochMs P localIso tz = Ok (Some q).
Proof.
  intros Hz Hf. unfold zonedLocalToEpochMs, baseOf. rewrite Hf. unfold ofZ at 1.
  set (base := DateUTC (year f) (month f - 1) (day f) (hour f) (minute f)
                 (second f)).
  destruct (getOffsetMinutesAt_returns P (inject_Z base) tz z Hz) as (off1 & E1).
  rewrite E1. cbn [bind nsub nmul ofZ].
  destruct (getOffsetMinutesAt_returns P
              (inject_Z base - off1 * inject_Z 60000)%Q tz z Hz) as (off2 & E2).
  rewrite E2. cbn. now eexists.
Qed.

(** The scheduler returns a list whenever the rows of the table are
    convertible and, for [todayOnly], the user's zone is known. *)
Lemma upcomingList_returns P W limit opts :
  (forall lines, flightsCsv W = Some lines ->
     Forall (convertible P) (rowsOf opts lines)) ->
  (todayOnly opts = true ->
   exists z, timeZone P (strOr (firstGiven (userTz opts)
                                  (Some "Australia/Sydney"))) = Some z) ->
  exists l, upcomingList P W limit opts = Ok l.
Proof.
  intros Hrows Htoday. unfold upcomingList.
  destruct (flightsCsv W) as [lines|]; [|now eexists].
  specialize (Hrows lines eq_refl).
  destruct (mapM_total (attachEpoch P) (rowsOf opts lines)) as (attached & ->).
  { eapply Forall_impl; [|exact Hrows].
    intros r ((z & Hz) & (f & Hf)). unfold attachEpoch.
    destruct (zonedLocalToEpochMs_returns P _ _ z f Hz Hf) as (q & ->).
    cbn. now eexists. }
  cbn [bind].
  change (fun r => nge (depEpoch r) (ofZ (dateNow P))) with (notPast P).
  set (sorted := sortBy byDeparture
                   (filter (notPast P) (directional opts attached))).
  assert (Hrem : exists remaining,
            (if todayOnly opts then todayFilter P opts sorted else Ok sorted)
            = Ok remaining).
  { destruct (todayOnly opts); [|now eexists].
    destruct (Htoday eq_refl) as (z & Hz). unfold todayFilter. rewrite Hz.
    apply filterM_total. apply Forall_forall. intros r Hr.
    apply (Permutation_in _ (sortBy_perm byDeparture _)) in Hr.
    apply filter_In in Hr. destruct Hr as [_ Hr].
    apply notPast_timed in Hr. unfold timed in Hr.
    destruct (depEpoch r); [now eexists | congruence]. }
  destruct Hrem as (remaining & ->). cbn [bind].
  destruct remaining; now eexists.
Qed.

Lemma formatUpcomingFlights_returns P W limit opts :
  (forall lines, flightsCsv W = Some lines ->
     Forall (convertible P) (rowsOf opts lines)) ->
  (todayOnly opts = true ->
   exists z, timeZone P (strOr (firstGiven (userTz opts)
                                  (Some "Australia/Sydney"))) = Some z) ->
  exists text, formatUpcomingFlights P W limit opts = Ok text.
Proof.
  intros Hrows Htoday. unfold formatUpcomingFlights.
  destruct (upcomingList_returns P W limit opts Hrows Htoday) as (l & ->).
  cbn [bind]. destruct l; now eexists.
Qed.

(** ** Regular expressions *)

Lemma searchFrom_spec r : forall s prev,
  searchFrom r prev s = true <->
  exists pre post,
    s = pre ++ post /\ m r (lastOf prev pre) post (fun _ _ => true) = true.
Proof.
  induction s as [|c s IH]; intro prev; cbn [searchFrom].
  - rewrite orb_false_r. split.
    + intro H. now exists "", "".
    + intros (pre & post & E & H). destruct pre; [|discriminate].
      simpl in E. subst post. exact H.
  - rewrite orb_true_iff, IH. split.
    + intros [H | (pre & post & -> & H)].
      * now exists "", (String c s).
      * now exists (String c pre), post.
    + intros (pre & post & E & H). destruct pre as [|c' pre].
      * simpl in E. subst post. now left.
      * simpl in E. injection E as -> ->. right. now exists pre, post.
Qed.

Lemma m_lit : forall w prev s k,
  w <> "" ->
  (m (lit w) prev s k = true <->
   exists rest, s = w ++ rest /\ k (lastOf prev w) rest = true).
Proof.
  induction w as [|c w IH]; intros prev s k Hw; [congruence|].
  destruct w as [|c' w].
  - cbn [lit m lastOf]. destruct s as [|a s].
    + split; [discriminate | intros (rest & E & _); discriminate].
    + rewrite andb_true_iff, Ascii.eqb_eq. split.
      * intros [-> H]. now exists s.
      * intros (rest & E & H). simpl in E. injection E as -> ->. auto.
  - change (lit (String c (String c' w)))
      with (RSeq (RChar c) (lit (String c' w))).
    cbn [m]. destruct s as [|a s].
    + split; [discriminate | intros (rest & E & _); discriminate].
    + rewrite andb_true_iff, Ascii.eqb_eq, IH by discriminate. split.
      * intros [-> (rest & -> & H)]. now exists rest.
      * intros (rest & E & H). simpl in E. injection E as -> ->.
        split; [reflexivity|]. now exists rest.
Qed.

Lemma xorb_true_l_false b : xorb b true = true <-> b = false.
Proof. destruct b; simpl; split; congruence. Qed.

Lemma xorb_true_false b : xorb true b = true <-> b = false.
Proof. destruct b; simpl; split; congruence. Qed.

(** [/\bw\b/] finds the occurrences of [w] as a word of its own, for a
    word [w] that begins and ends with a word character. *)
Lemma test_word w s :
  w <> "" ->
  (forall rest, wordAt (headOf (w ++ rest)) = true) ->
  (forall prev, wordAt (lastOf prev w) = true) ->
  (test (RSeq RWordB (RSeq (lit w) RWordB)) s = true <-> standaloneWord w s).
Proof.
  intros Hw Hhead Hlast. unfold test, standaloneWord.
  rewrite searchFrom_spec. split.
  - intros (pre & post & -> & H). cbn [m] in H.
    apply andb_prop in H. destruct H as [Hb H].
    apply (m_lit w _ _ _ Hw) in H. destruct H as (rest & -> & H).
    rewrite Hhead in Hb. apply xorb_true_l_false in Hb.
    cbn [m] in H. rewrite andb_true_r, Hlast in H.
    apply xorb_true_false in H. now exists pre, rest.
  - intros (pre & post & -> & Hb & Ha). exists pre, (w ++ post).
    split; [reflexivity|]. cbn [m]. apply andb_true_intro. split.
    + rewrite Hhead. now apply xorb_true_l_false.
    + apply (m_lit w _ _ _ Hw). exists post. split; [reflexivity|].
      cbn [m]. rewrite andb_true_r, Hlast. now apply xorb_true_false.
Qed.

Lemma reNext_standalone s : test reNext s = true <-> standaloneWord "next" s.
Proof. apply test_word; [discriminate | reflexivity | reflexivity]. Qed.

Lemma reToday_standalone s : test reToday s = true <-> standaloneWord "today" s.
Proof. apply test_word; [discriminate | reflexivity | reflexivity]. Qed.

Lemma append_assoc_char w c post :
  (w ++ String c post = (w ++ String c "") ++ post)%string.
Proof. induction w as [|a w IH]; simpl; [reflexivity | now rewrite IH]. Qed.

(** [/\bflight(s)?\b/] finds [flight] or [flights] as a word of its own. *)
Lemma reFlight_standalone s :
  test reFlight s = true <->
  standaloneWord "flight" s \/ standaloneWord "flights" s.
Proof.
  unfold test, standaloneWord. rewrite searchFrom_spec. split.
  - intros (pre & post & -> & H). unfold reFlight in H. cbn [m] in H.
    apply andb_prop in H. destruct H as [Hb H].
    apply (m_lit "flight") in H; [|discriminate].
    destruct H as (rest & -> & H).
    change (wordAt (headOf ("flight" ++ rest))) with true in Hb.
    apply xorb_true_l_false in Hb.
    apply orb_prop in H. destruct H as [H | H].
    + right. destruct rest as [|a rest]; [discriminate|].
      apply andb_prop in H. destruct H as [Ea H]. apply Ascii.eqb_eq in Ea.
      subst a. rewrite andb_true_r in H. apply xorb_true_false in H.
      exists pre, rest. auto.
    + left. rewrite andb_true_r in H.
      change (wordAt (lastOf (lastOf None pre) "flight")) with true in H.
      apply xorb_true_false in H. exists pre, rest. auto.
  - intros [(pre & post & -> & Hb & Ha) | (pre & post & -> & Hb & Ha)].
    + exists pre, ("flight" ++ post). split; [reflexivity|].
      unfold reFlight. cbn [m]. apply andb_true_intro. split.
      * change (wordAt (headOf ("flight" ++ post))) with true.
        now apply xorb_true_l_false.
      * apply (m_lit "flight"); [discriminate|]. exists post.
        split; [reflexivity|]. apply orb_true_iff. right.
        rewrite andb_true_r.
        change (wordAt (lastOf (lastOf None pre) "flight")) with true.
        now apply xorb_true_false.
    + exists pre, ("flights" ++ post). split; [reflexivity|].
      unfold reFlight. cbn [m]. apply andb_true_intro. split.
      * change (wordAt (headOf ("flights" ++ post))) with true.
        now apply xorb_true_l_false.
      * apply (m_lit "flight"); [discriminate|]. exists (String "s" post).
        split; [reflexivity|]. apply orb_true_iff. left.
        rewrite Ascii.eqb_refl, andb_true_r. now apply xorb_true_false.
Qed.

(** ** The retrieval orchestrator *)

(** The flight pattern on some normalized texts: a word of its own matches,
    a longer word that contains it does not. *)
Example reFlight_samples :
  test reFlight "flight" = true /\
  test reFlight "what flights go to perth" = true /\
  test reFlight "next flight" = true /\
  test reFlight "inflight meal" = false /\
  test reFlight "flightsx" = false /\
  test reFlight "flight_plan" = false /\
  test reFlight "" = false.
Proof. vm_compute. repeat split. Qed.

Lemma rowsOf_userTz opts opts' lines :
  userTz opts = userTz opts' -> rowsOf opts lines = rowsOf opts' lines.
Proof. intro H. unfold rowsOf. rewrite H. reflexivity. Qed.

(** C9: when the normalized text holds [flight] or [flights] as a word of
    its own, [retrieveData] is the flights listing wrapped as a
    [travelSchedule] result, whatever the entities; the term and city
    branches are not taken.  The listing, and so the result, is returned
    whenever the rows of the flights table are convertible. *)
Theorem retrieveData_flight_precedence
  (this : Engine) (P : Platform) (W : World) (parsed : ParsedQuery) :
  standaloneWord "flight" (normalized parsed) \/
  standaloneWord "flights" (normalized parsed) ->
  retrieveData this P W parsed
  = (text <- formatUpcomingFlights P W 10
               (flightOptsFor (snd (classify this (entities parsed)))) ;;
     Ok (Some (TravelSchedule text))) /\
  ((forall lines, flightsCsv W = Some lines ->
      Forall (convertible P) (rowsOf baseOpts lines)) ->
   exists text, retrieveData this P W parsed = Ok (Some (TravelSchedule text))).
Proof.
  intro Hf. apply reFlight_standalone in Hf.
  assert (E : retrieveData this P W parsed
              = (text <- formatUpcomingFlights P W 10
                           (flightOptsFor (snd (classify this (entities parsed)))) ;;
                 Ok (Some (TravelSchedule text)))).
  { revert Hf. unfold retrieveData.
    destruct (normalized parsed) as [|c s]; intro Hf;
      [vm_compute in Hf; discriminate|].
    cbn [isEmpty]. rewrite andb_false_r.
    destruct (classify this (entities parsed)) as [term city].
    rewrite Hf. reflexivity. }
  split; [exact E|].
  intro Hrows. rewrite E.
  set (opts := flightOptsFor (snd (classify this (entities parsed)))).
  assert (Htz : userTz opts = userTz baseOpts)
    by (unfold opts, flightOptsFor; now destruct (given _)).
  assert (Htoday : todayOnly opts = false)
    by (unfold opts, flightOptsFor; now destruct (given _)).
  destruct (formatUpcomingFlights_returns P W 10 opts) as (text & ->).
  - intros lines Hl. rewrite (rowsOf_userTz opts baseOpts lines Htz). auto.
  - rewrite Htoday. discriminate.
  - cbn. now eexists.
Qed.

Lemma retrieveData_flight_precedence_witness :
  exists text,
    retrieveData {| industryTerms := ["rider"]; cities := ["sydney"] |}
      Samples.platform Samples.world
      {| verb := Some "what is"; entities := ["rider"; "sydney"; "flight"];
         normalized := "what is the rider for the flight to sydney" |}
    = Ok (Some (TravelSchedule text)).
Proof.
  refine (proj2 (retrieveData_flight_precedence
                   {| industryTerms := ["rider"]; cities := ["sydney"] |}
                   Samples.platform Samples.world
                   {| verb := Some "what is";
                      entities := ["rider"; "sydney"; "flight"];
                      normalized := "what is the rider for the flight to sydney" |}
                   _) _).
  - apply reFlight_standalone. vm_compute. reflexivity.
  - intros lines E. injection E as <-.
    apply Forall_forall. intros r Hr. vm_compute in Hr.
    destruct Hr as [<- | [<- | [<- | []]]];
      split; eexists; reflexivity.
Defined.

(** ** The travel handler *)

Lemma given_find_cases (f : string -> bool) cities :
  Forall (fun c => c <> "") cities ->
  (exists c, arrayFind f cities = Some c /\ given (Some c) = true) \/
  (arrayFind f cities = None).
Proof.
  intro Hne. destruct (arrayFind f cities) as [c|] eqn:E; [left | now right].
  exists c. split; [reflexivity|].
  unfold arrayFind in E. apply find_some in E.
  rewrite Forall_forall in Hne. specialize (Hne c (proj1 E)).
  destruct c; [congruence | reflexivity].
Qed.

(** C10: the travel handler derives at most one filter option from the
    lower-cased message, testing in this order and stopping at the first
    hit: a known city after [from ] ([fromCity], limit 50), a known city
    after [to ] ([toCity], limit 50), the word [next] ([nextOnly], limit 1),
    the word [today] ([todayOnly], limit 50), a known city ([city], limit
    50); otherwise no filter and the limit 10. *)
Theorem travelOptions_decision (cities : list string) (msg : string) :
  Forall (fun c => c <> "") cities ->
  TravelChoice cities msg (fst (travelOptions cities msg))
                          (snd (travelOptions cities msg)) /\
  (filtersSet (fst (travelOptions cities msg)) <= 1)%nat /\
  (forall P W s,
     toLowerCase s = msg ->
     travel cities P W (VStr s)
     = tryCatch
         (text <- formatUpcomingFlights P W (snd (travelOptions cities msg))
                    (fst (travelOptions cities msg)) ;;
          Ok (respond "schedule" text))
         (fun e => Ok (respond "error" ("Flights lookup failed: " ++ emessage e)))).
Proof.
  intro Hne. split; [|split].
  - unfold travelOptions.
    destruct (given_find_cases (fun c => includes msg ("from " ++ c)) cities Hne)
      as [(c & E & G) | E]; rewrite E.
    { rewrite G. cbn [fst snd]. apply ChooseFrom. now apply arrayFind_first. }
    cbn [given]. pose proof (proj1 (arrayFind_none _ _) E) as Nfrom.
    destruct (given_find_cases (fun c => includes msg ("to " ++ c)) cities Hne)
      as [(c & E2 & G2) | E2]; rewrite E2.
    { rewrite G2. cbn [fst snd]. apply ChooseTo; [exact Nfrom|].
      now apply arrayFind_first. }
    cbn [given]. pose proof (proj1 (arrayFind_none _ _) E2) as Nto.
    destruct (test reNext msg) eqn:Tn.
    { cbn [fst snd]. apply ChooseNext; auto. now apply reNext_standalone. }
    assert (Nn : ~ standaloneWord "next" msg)
      by (intro Hn; apply reNext_standalone in Hn; congruence).
    destruct (test reToday msg) eqn:Tt.
    { cbn [fst snd]. apply ChooseToday; auto. now apply reToday_standalone. }
    assert (Nt : ~ standaloneWord "today" msg)
      by (intro Ht; apply reToday_standalone in Ht; congruence).
    destruct (given_find_cases (fun c => includes msg c) cities Hne)
      as [(c & E3 & G3) | E3]; rewrite E3.
    { rewrite G3. cbn [fst snd]. apply ChooseCity; auto.
      now apply arrayFind_first. }
    cbn [given fst snd]. apply ChooseNone; auto.
    exact (proj1 (arrayFind_none _ _) E3).
  - unfold travelOptions.
    destruct (given_find_cases (fun c => includes msg ("from " ++ c)) cities Hne)
      as [(c & E & G) | E]; rewrite E.
    { rewrite G. unfold filtersSet.
      cbn [fst toCity fromCity city todayOnly nextOnly baseOpts].
      rewrite G. cbn. lia. }
    cbn [given].
    destruct (given_find_cases (fun c => includes msg ("to " ++ c)) cities Hne)
      as [(c & E2 & G2) | E2]; rewrite E2.
    { rewrite G2. unfold filtersSet.
      cbn [fst toCity fromCity city todayOnly nextOnly baseOpts].
      rewrite G2. cbn. lia. }
    cbn [given].
    destruct (test reNext msg); [cbn; lia|].
    destruct (test reToday msg); [cbn; lia|].
    destruct (given_find_cases (fun c => includes msg c) cities Hne)
      as [(c & E3 & G3) | E3]; rewrite E3.
    { rewrite G3. unfold filtersSet.
      cbn [fst toCity fromCity city todayOnly nextOnly baseOpts].
      rewrite G3. cbn. lia. }
    cbn. lia.
  - intros P W s <-. unfold travel.
    assert (E : toLowerCaseOf (orElse (VStr s) (VStr "")) = Ok (toLowerCase s)).
    { unfold orElse. destruct s; reflexivity. }
    rewrite E. cbn [bind].
    destruct (travelOptions cities (toLowerCase s)). reflexivity.
Qed.

Lemma travelOptions_decision_witness :
  TravelChoice CITIES "flights from sydney to perth"
    (fst (travelOptions CITIES "flights from sydney to perth"))
    (snd (travelOptions CITIES "flights from sydney to perth")) /\
  travelOptions CITIES "flights from sydney to perth" = (withFrom "sydney", 50).
Proof.
  split.
  - refine (proj1 (travelOptions_decision CITIES "flights from sydney to perth" _)).
    repeat constructor; discriminate.
  - vm_compute. reflexivity.
Defined.

(** ** The response generator *)






(** A failure of the show data source under the schedule handler ends in
    the error response that carries its message. *)
Lemma generateResponse_store_failure this P W message intent member e :
  intent_type intent = Some "show_schedule" ->
  getShows W = Throw e ->
  generateResponse this P W message (Some intent) member
  = Ok {| type := "error";
          text := "Sorry, something went wrong while generating a response.";
          rerror := Some (errorText e) |}.
Proof.
  intros Hi Hs. unfold generateResponse. rewrite Hi. cbn.
  unfold showSchedule. rewrite Hs. reflexivity.
Qed.

(** ** The intent classifier *)

(** The fast path: when the helpers return and a lookup hits, the rules
    are not consulted and the result carries no confidence. *)
Lemma matchIntent_fast_path H content q n tid :
  cleanName H content = Ok (VStr q) ->
  normalize H (inputOf content) = Ok n ->
  (lookupExact H n = Ok (Some tid) \/
   (lookupExact H n = Ok None /\ lookupInSentence H n = Ok (Some tid))) ->
  matchIntent H content = Ok (fastPathIntent tid).
Proof.
  intros Hc Hn Hl. unfold matchIntent. rewrite Hc. cbn [bind toLowerCaseOf].
  rewrite Hn. cbn [bind].
  destruct Hl as [-> | [-> ->]]; reflexivity.
Qed.

(** C4, on the code: the message [Rider schedule?] hits the vocabulary
    entry [rider] and also matches the schedule rule; the fast path wins,
    and the intent it returns has no [confidence] field, where the claim
    has a confidence of 1. *)
Theorem matchIntent_fast_path_without_confidence :
  let H := Samples.helpers [ "rider"; "load in" ] in
  let content := VStr "Rider schedule?" in
  test reSchedule (toLowerCase "Rider schedule?") = true /\
  matchIntent H content = Ok (fastPathIntent "rider") /\
  confidence (fastPathIntent "rider") = None /\
  confidence (fastPathIntent "rider") <> Some 1%Q.
Proof.
  cbv zeta. split; [vm_compute; reflexivity|].
  split; [vm_compute; reflexivity|]. split; [reflexivity | discriminate].
Qed.



(** Exceptions of the helpers are not caught. *)
Lemma matchIntent_propagates H content e :
  cleanName H content = Throw e \/
  (exists q n, cleanName H content = Ok (VStr q) /\
               normalize H (inputOf content) = Ok n /\
               lookupExact H n = Throw e) ->
  matchIntent H content = Throw e.
Proof.
  intros [Hc | (q & n & Hc & Hn & Hl)]; unfold matchIntent; rewrite Hc.
  - reflexivity.
  - cbn [bind toLowerCaseOf]. rewrite Hn. cbn [bind]. rewrite Hl. reflexivity.
Qed.

